(** * Dev-notes MCP server ([src/index.js]): model and verified properties

    The server keeps markdown notes as flat files in one directory and
    offers three tools, [save_note], [list_notes] and [read_note], behind a
    dispatcher.  This development embeds

    - the string primitives of the JavaScript runtime that [slugify] and the
      handlers call (code-unit strings, [trim], global regular-expression
      replacement over a character class, [endsWith], first-occurrence
      [replace], [join]);
    - the UTF-8 encoding that [writeFileSync(_, _, "utf-8")] and
      [readFileSync(_, "utf-8")] apply between a string and the bytes of a
      file;
    - the notes directory as a finite map from file names to files;
    - [slugify], [ensureNotesDir], the three handlers, [processToolCall] and
      the request handler that wraps its result;

    and proves the properties of the specification about them.

    Two functions of the runtime are parameters of the model: the Unicode
    lower-casing [toLowerCase] and the calendar date of a time stamp.  The
    properties of [slugify] that depend on lower-casing are proved from two
    facts about it, that it is the ASCII lower-casing on ASCII strings and
    that it never yields an upper-case ASCII letter.

    The order in which the file system enumerates a directory is a parameter
    as well: a relation that tells which of two entries comes first.

    Scope of the file-system model: the notes directory holds regular files
    only; a write fails when the file name is longer than the file system
    allows, and for no other reason (no permission or quota failure). *)

From Stdlib Require Import ZArith Lia List Bool String Ascii.
From stdpp Require Import base option list gmap.

Local Open Scope Z_scope.

(** ** JavaScript strings *)

(** A JavaScript string is a sequence of UTF-16 code units. *)
Abbreviation jsstring := (list Z).

Module JS.

(** The code units of an ASCII literal. *)
Definition str (s : string) : jsstring :=
  List.map (fun a => Z.of_N (N_of_ascii a)) (list_ascii_of_string s).

Definition HYPHEN : Z := 45.
Definition SPACE : Z := 32.

(** [\s] of a regular expression, which is also what [trim] strips:
    WhiteSpace and LineTerminator of ECMAScript. *)
Definition isWhiteSpace (c : Z) : bool :=
  ((9 <=? c) && (c <=? 13)) || (c =? 32) || (c =? 0xA0) || (c =? 0x1680)
  || ((0x2000 <=? c) && (c <=? 0x200A)) || (c =? 0x2028) || (c =? 0x2029)
  || (c =? 0x202F) || (c =? 0x205F) || (c =? 0x3000) || (c =? 0xFEFF).

Definition isUpper (c : Z) : bool := (65 <=? c) && (c <=? 90).
Definition isLower (c : Z) : bool := (97 <=? c) && (c <=? 122).
Definition isDigit (c : Z) : bool := (48 <=? c) && (c <=? 57).

(** [\w] without the [u] and [i] flags: [A-Za-z0-9_]. *)
Definition isWordChar (c : Z) : bool :=
  isUpper c || isLower c || isDigit c || (c =? 95).

Definition isHyphen (c : Z) : bool := c =? HYPHEN.

Definition isAscii (c : Z) : bool := (0 <=? c) && (c <? 128).

(** Lower-casing of one ASCII code unit. *)
Definition asciiLower (c : Z) : Z := if isUpper c then c + 32 else c.

(** Lower-casing of a string of ASCII code units. *)
Definition asciiLowerCase (s : jsstring) : jsstring := List.map asciiLower s.

Fixpoint dropWhile (p : Z -> bool) (s : jsstring) : jsstring :=
  match s with
  | [] => []
  | c :: r => if p c then dropWhile p r else s
  end.

Definition trimStart (s : jsstring) : jsstring := dropWhile isWhiteSpace s.
Definition trimEnd (s : jsstring) : jsstring :=
  rev (dropWhile isWhiteSpace (rev s)).

(** [s.trim()] *)
Definition trim (s : jsstring) : jsstring := trimEnd (trimStart s).

(** [s.replace(/[cls]/g, repl)], for a replacement without [$]: every code
    unit of the class is a match of length one. *)
Fixpoint replaceClass (cls : Z -> bool) (repl s : jsstring) : jsstring :=
  match s with
  | [] => []
  | c :: r =>
      if cls c then repl ++ replaceClass cls repl r
      else c :: replaceClass cls repl r
  end.

(** [s.replace(/[cls]+/g, repl)]: the matcher scans from the left; at a code
    unit of the class it takes the longest run and the replacement is emitted
    once for it.  [inRun] tells that the previous code unit belonged to the
    match in progress. *)
Fixpoint replaceRuns (cls : Z -> bool) (repl : jsstring) (inRun : bool)
    (s : jsstring) : jsstring :=
  match s with
  | [] => []
  | c :: r =>
      if cls c then
        (if inRun then [] else repl) ++ replaceRuns cls repl true r
      else c :: replaceRuns cls repl false r
  end.

Definition replacePlus (cls : Z -> bool) (repl s : jsstring) : jsstring :=
  replaceRuns cls repl false s.

Fixpoint startsWith (s pat : jsstring) {struct pat} : bool :=
  match pat, s with
  | [], _ => true
  | _ :: _, [] => false
  | p :: pat', c :: r => (c =? p) && startsWith r pat'
  end.

(** [s.endsWith(suffix)] *)
Definition endsWith (s suffix : jsstring) : bool :=
  startsWith (rev s) (rev suffix).

(** [s.replace(pat, repl)] with a string pattern: only the first occurrence
    is replaced. *)
Fixpoint replaceFirst (pat repl s : jsstring) : jsstring :=
  if startsWith s pat then repl ++ drop (length pat) s
  else match s with
       | [] => []
       | c :: r => c :: replaceFirst pat repl r
       end.

(** Whether the first code unit belongs to a class. *)
Definition startsClass (cls : Z -> bool) (s : jsstring) : bool :=
  match s with
  | [] => false
  | c :: _ => cls c
  end.

(** No code unit of the class is followed by another one. *)
Fixpoint noAdjacent (cls : Z -> bool) (s : jsstring) : Prop :=
  match s with
  | [] => True
  | c :: r => (cls c = true -> startsClass cls r = false) /\ noAdjacent cls r
  end.

(** [lines.join(sep)] *)
Fixpoint join (sep : jsstring) (lines : list jsstring) : jsstring :=
  match lines with
  | [] => []
  | [l] => l
  | l :: rest => l ++ sep ++ join sep rest
  end.

End JS.

(** ** UTF-8, as applied by the ["utf-8"] argument of [writeFileSync] and
    [readFileSync] *)

Module Utf8.

Definition REPLACEMENT : Z := 0xFFFD.

Definition isHighSurrogate (c : Z) : bool := (0xD800 <=? c) && (c <=? 0xDBFF).
Definition isLowSurrogate (c : Z) : bool := (0xDC00 <=? c) && (c <=? 0xDFFF).

(** The code point of a surrogate pair. *)
Definition pairCodePoint (hi lo : Z) : Z :=
  0x10000 + (hi - 0xD800) * 0x400 + (lo - 0xDC00).

(** The bytes of one code point (bit distribution of the Unicode Standard,
    table 3-6, written with quotients and remainders). *)
Definition encodeCodePoint (cp : Z) : list Z :=
  if cp <? 0x80 then [cp]
  else if cp <? 0x800 then [0xC0 + cp / 64; 0x80 + cp mod 64]
  else if cp <? 0x10000 then
    [0xE0 + cp / 4096; 0x80 + (cp / 64) mod 64; 0x80 + cp mod 64]
  else
    [0xF0 + cp / 262144; 0x80 + (cp / 4096) mod 64;
     0x80 + (cp / 64) mod 64; 0x80 + cp mod 64].

(** String to bytes.  A surrogate pair is one code point; a surrogate that is
    not part of a pair has no UTF-8 form and is written as U+FFFD. *)
Fixpoint encode (s : jsstring) : list Z :=
  match s with
  | [] => []
  | c :: r =>
      if isHighSurrogate c then
        match r with
        | d :: r' =>
            if isLowSurrogate d
            then encodeCodePoint (pairCodePoint c d) ++ encode r'
            else encodeCodePoint REPLACEMENT ++ encode r
        | [] => encodeCodePoint REPLACEMENT
        end
      else if isLowSurrogate c then encodeCodePoint REPLACEMENT ++ encode r
      else encodeCodePoint c ++ encode r
  end.

(** The decoder is the state machine of the Encoding Standard: the code
    point being assembled, the continuation bytes still needed, and the
    bounds the next continuation byte has to respect. *)
Record decoder := {
  codePoint : Z;
  bytesNeeded : Z;
  lowerBoundary : Z;
  upperBoundary : Z
}.

Definition idle : decoder :=
  {| codePoint := 0; bytesNeeded := 0;
     lowerBoundary := 0x80; upperBoundary := 0xBF |}.

(** A byte read when no sequence is in progress. *)
Definition leadByte (b : Z) : list Z * decoder :=
  if b <=? 0x7F then ([b], idle)
  else if (0xC2 <=? b) && (b <=? 0xDF) then
    ([], {| codePoint := b - 0xC0; bytesNeeded := 1;
            lowerBoundary := 0x80; upperBoundary := 0xBF |})
  else if (0xE0 <=? b) && (b <=? 0xEF) then
    ([], {| codePoint := b - 0xE0; bytesNeeded := 2;
            lowerBoundary := if b =? 0xE0 then 0xA0 else 0x80;
            upperBoundary := if b =? 0xED then 0x9F else 0xBF |})
  else if (0xF0 <=? b) && (b <=? 0xF4) then
    ([], {| codePoint := b - 0xF0; bytesNeeded := 3;
            lowerBoundary := if b =? 0xF0 then 0x90 else 0x80;
            upperBoundary := if b =? 0xF4 then 0x8F else 0xBF |})
  else ([REPLACEMENT], idle).

(** One byte: the code points emitted and the next state.  A byte outside
    the bounds ends the sequence in progress with U+FFFD and is then read
    again as a lead byte. *)
Definition decodeByte (st : decoder) (b : Z) : list Z * decoder :=
  if bytesNeeded st =? 0 then leadByte b
  else if (b <? lowerBoundary st) || (upperBoundary st <? b) then
    let '(out, st') := leadByte b in (REPLACEMENT :: out, st')
  else
    let cp := codePoint st * 64 + (b - 0x80) in
    if bytesNeeded st =? 1 then ([cp], idle)
    else ([], {| codePoint := cp; bytesNeeded := bytesNeeded st - 1;
                 lowerBoundary := 0x80; upperBoundary := 0xBF |}).

Fixpoint decodeFrom (st : decoder) (bs : list Z) : list Z :=
  match bs with
  | [] => if bytesNeeded st =? 0 then [] else [REPLACEMENT]
  | b :: r => let '(out, st') := decodeByte st b in out ++ decodeFrom st' r
  end.

(** The code units of one code point. *)
Definition codeUnits (cp : Z) : jsstring :=
  if cp <? 0x10000 then [cp]
  else [0xD800 + (cp - 0x10000) / 0x400; 0xDC00 + (cp - 0x10000) mod 0x400].

(** Bytes to string. *)
Definition decode (bs : list Z) : jsstring :=
  flat_map codeUnits (decodeFrom idle bs).

(** A string is well formed when its code units are 16-bit and every
    surrogate is half of a pair. *)
Fixpoint wellFormed (s : jsstring) : bool :=
  match s with
  | [] => true
  | c :: r =>
      if isHighSurrogate c then
        match r with
        | d :: r' => isLowSurrogate d && wellFormed r'
        | [] => false
        end
      else (0 <=? c) && (c <? 0x10000) && negb (isLowSurrogate c)
           && wellFormed r
  end.

End Utf8.

(** ** The notes directory and the effects of the handlers *)

(** A regular file: its bytes and its time of last modification
    (milliseconds since the epoch). *)
Record file := { bytes : list Z; mtime : Z }.

(** What the handlers can observe and change: [NOTES_DIR], absent or a finite
    map from file names to files, and the system clock that stamps writes. *)
Record world := {
  notesDir : option (gmap (list Z) file);
  clock : Z
}.

(** The files of the store: those of [NOTES_DIR], none while it is absent. *)
Definition files (w : world) : gmap (list Z) file := default ∅ (notesDir w).

(** The content stored under each file name. *)
Definition contents (w : world) : gmap (list Z) (list Z) := bytes <$> files w.

(** The world once [NOTES_DIR] exists. *)
Definition withNotesDir (w : world) : world :=
  {| notesDir := Some (files w); clock := clock w |}.

Inductive error := TypeError | ENOENT | ENAMETOOLONG.

Inductive outcome (A : Type) :=
  | Returns (a : A)
  | Throws (e : error).
Arguments Returns {A} a.
Arguments Throws {A} e.

(** A computation over the world that returns or throws. *)
Definition M (A : Type) : Type := world -> outcome A * world.

Definition ret {A} (a : A) : M A := fun w => (Returns a, w).
Definition throw {A} (e : error) : M A := fun w => (Throws e, w).
Definition bind {A B} (m : M A) (k : A -> M B) : M B :=
  fun w =>
    match m w with
    | (Returns a, w') => k a w'
    | (Throws e, w') => (Throws e, w')
    end.

Notation "x <- m ;; k" := (bind m (fun x => k))
  (at level 100, m at next level, right associativity).
Notation "m ;; k" := (bind m (fun _ => k))
  (at level 100, right associativity).

(** The world after a call. *)
Definition after {A} (m : M A) (w : world) : world := (m w).2.

(** What a call returns or throws. *)
Definition result {A} (m : M A) (w : world) : outcome A := (m w).1.

Fixpoint mapM {A B} (f : A -> M B) (l : list A) : M (list B) :=
  match l with
  | [] => ret []
  | a :: r => b <- f a ;; bs <- mapM f r ;; ret (b :: bs)
  end.

Module Fs.

(** [fs.existsSync(NOTES_DIR)] *)
Definition existsDirSync : M bool :=
  fun w => (Returns (bool_decide (is_Some (notesDir w))), w).

(** [fs.mkdirSync(NOTES_DIR, { recursive: true })] *)
Definition mkdirSync : M unit :=
  fun w =>
    match notesDir w with
    | Some _ => (Returns tt, w)
    | None => (Returns tt, {| notesDir := Some ∅; clock := clock w |})
    end.

(** [fs.existsSync(path.join(NOTES_DIR, name))] *)
Definition existsSync (name : jsstring) : M bool :=
  fun w =>
    match notesDir w with
    | Some d => (Returns (bool_decide (is_Some (d !! name))), w)
    | None => (Returns false, w)
    end.

(** The longest file name that the file system takes, in bytes. *)
Definition NAME_MAX : nat := 255.

(** Whether a file name, written in UTF-8, is longer than that. *)
Definition nameTooLong (name : jsstring) : bool :=
  (NAME_MAX <? length (Utf8.encode name))%nat.

(** [fs.writeFileSync(path.join(NOTES_DIR, name), data, "utf-8")]: the file
    is created or truncated and holds the UTF-8 bytes of [data]; a name that
    is too long is refused with [ENAMETOOLONG] and nothing is written. *)
Definition writeFileSync (name data : jsstring) : M unit :=
  fun w =>
    match notesDir w with
    | Some d =>
        if nameTooLong name then (Throws ENAMETOOLONG, w)
        else
          (Returns tt,
           {| notesDir :=
                Some (<[name := {| bytes := Utf8.encode data;
                                   mtime := clock w |}]> d);
              clock := clock w |})
    | None => (Throws ENOENT, w)
    end.

(** [fs.readFileSync(path.join(NOTES_DIR, name), "utf-8")] *)
Definition readFileSync (name : jsstring) : M jsstring :=
  fun w =>
    match notesDir w with
    | Some d =>
        match d !! name with
        | Some f => (Returns (Utf8.decode (bytes f)), w)
        | None => (Throws ENOENT, w)
        end
    | None => (Throws ENOENT, w)
    end.

(** The entries of a directory in the order of the file system: [earlier]
    tells whether the file system enumerates an entry before another one,
    and each entry is placed before the first entry that it is earlier
    than. *)
Fixpoint place {A} (earlier : A -> A -> bool) (x : A) (l : list A) : list A :=
  match l with
  | [] => [x]
  | y :: r => if earlier x y then x :: l else y :: place earlier x r
  end.

Definition arrange {A} (earlier : A -> A -> bool) (l : list A) : list A :=
  foldr (place earlier) [] l.

(** [fs.readdirSync(NOTES_DIR)]: the names of the entries, each once, in the
    order of the file system. *)
Definition readdirSync (earlier : jsstring * file -> jsstring * file -> bool)
    : M (list jsstring) :=
  fun w =>
    match notesDir w with
    | Some d => (Returns (arrange earlier (map_to_list d)).*1, w)
    | None => (Throws ENOENT, w)
    end.

(** [fs.statSync(path.join(NOTES_DIR, name)).mtime] *)
Definition statSync (name : jsstring) : M Z :=
  fun w =>
    match notesDir w with
    | Some d =>
        match d !! name with
        | Some f => (Returns (mtime f), w)
        | None => (Throws ENOENT, w)
        end
    | None => (Throws ENOENT, w)
    end.

End Fs.

(** ** The server *)

(** A value of an argument bundle: a string, or anything else that JSON can
    carry and [undefined] for a missing field. *)
Inductive jsval :=
  | VString (s : jsstring)
  | VNotString.

Record arguments := { title : jsval; content : jsval }.

(** A content item [{ type, text }]. *)
Record payload := { type : jsstring; text : jsstring }.

(** The response envelope [{ content: [result] }]. *)
Record response := { content_items : list payload }.

(** The file names that [handleListNotes] keeps from the enumeration. *)
Definition listedFiles (earlier : jsstring * file -> jsstring * file -> bool)
    (w : world) : list jsstring :=
  List.filter (fun file => JS.endsWith file (JS.str ".md"))
    (Fs.arrange earlier (map_to_list (files w))).*1.

Section Server.

(** [String.prototype.toLowerCase], the Unicode lower-casing of the runtime. *)
Variable toLowerCase : jsstring -> jsstring.

(** [mtime.toISOString().split("T")[0]]: the calendar date of a time. *)
Variable isoDate : Z -> jsstring.

(** Whether the file system enumerates an entry of the directory before
    another one. *)
Variable earlier : jsstring * file -> jsstring * file -> bool.

Definition slugify (text : jsstring) : jsstring :=
  JS.replacePlus JS.isHyphen (JS.str "-")
    (JS.replacePlus JS.isWhiteSpace (JS.str "-")
      (JS.replaceClass
         (fun c => negb (JS.isWordChar c || JS.isWhiteSpace c || JS.isHyphen c))
         (JS.str "")
         (JS.trim (toLowerCase text)))).

(** [slugify] applied to a value of an argument bundle: [text.toLowerCase]
    is not a function unless [text] is a string. *)
Definition slugifyVal (text : jsval) : M jsstring :=
  match text with
  | VString s => ret (slugify s)
  | VNotString => throw TypeError
  end.

Definition ensureNotesDir : M unit :=
  ex <- Fs.existsDirSync ;;
  if negb ex then Fs.mkdirSync else ret tt.

(** [writeFileSync] takes a string (or a buffer) as data and throws a
    [TypeError] for any other value. *)
Definition handleSaveNote (title content : jsval) : M payload :=
  ensureNotesDir ;;
  slug <- slugifyVal title ;;
  let filename := slug ++ JS.str ".md" in
  match content with
  | VString data =>
      Fs.writeFileSync filename data ;;
      ret {| type := JS.str "text";
             text := JS.str "Note saved successfully: " ++ filename |}
  | VNotString => throw TypeError
  end.

(** The title shown for a file of the listing. *)
Definition displayTitle (file : jsstring) : jsstring :=
  JS.replaceClass JS.isHyphen (JS.str " ")
    (JS.replaceFirst (JS.str ".md") (JS.str "") file).

(** The text of one line of the listing. *)
Definition formatLine (title file lastModified : jsstring) : jsstring :=
  JS.str "- **" ++ title ++ JS.str "** (" ++ file
  ++ JS.str ") - Modified: " ++ lastModified.

(** One line of the listing (the function mapped over [files]). *)
Definition noteLine (file : jsstring) : M jsstring :=
  mt <- Fs.statSync file ;;
  let title := displayTitle file in
  let lastModified := isoDate mt in
  ret (formatLine title file lastModified).

Definition LF : jsstring := [10].

Definition handleListNotes : M payload :=
  ensureNotesDir ;;
  names <- Fs.readdirSync earlier ;;
  let files := List.filter (fun file => JS.endsWith file (JS.str ".md")) names in
  if (length files =? 0)%nat then
    ret {| type := JS.str "text";
           text := JS.str "No notes found in ~/dev-notes/" |}
  else
    lines <- mapM noteLine files ;;
    let notesList := JS.join LF lines in
    ret {| type := JS.str "text";
           text := JS.str "Available notes:" ++ LF ++ LF ++ notesList |}.

Definition handleReadNote (title : jsval) : M payload :=
  ensureNotesDir ;;
  slug <- slugifyVal title ;;
  let filename := slug ++ JS.str ".md" in
  ex <- Fs.existsSync filename ;;
  if negb ex then
    ret {| type := JS.str "text";
           text := JS.str "Note not found: " ++ filename |}
  else
    content <- Fs.readFileSync filename ;;
    ret {| type := JS.str "text"; text := content |}.

(** [args.title], [args.content]: reading a property of [undefined] throws. *)
Definition getArg (field : arguments -> jsval) (args : option arguments)
    : M jsval :=
  match args with
  | Some a => ret (field a)
  | None => throw TypeError
  end.

Definition processToolCall (name : jsstring) (args : option arguments)
    : M payload :=
  if decide (name = JS.str "save_note") then
    t <- getArg title args ;;
    c <- getArg content args ;;
    handleSaveNote t c
  else if decide (name = JS.str "list_notes") then
    handleListNotes
  else if decide (name = JS.str "read_note") then
    t <- getArg title args ;;
    handleReadNote t
  else
    ret {| type := JS.str "text"; text := JS.str "Unknown tool: " ++ name |}.

(** The handler registered for [CallToolRequestSchema]. *)
Definition callTool (name : jsstring) (args : option arguments) : M response :=
  result <- processToolCall name args ;;
  ret {| content_items := [result] |}.

(** The line that the listing shows for a file of the store. *)
Definition lineOf (w : world) (file : jsstring) : jsstring :=
  formatLine (displayTitle file) file
    (isoDate (from_option mtime 0 (files w !! file))).

End Server.

(** What a code unit of a slug is: a lower-case letter, a digit, an
    underscore or a hyphen. *)
Definition slugUnit (c : Z) : Prop :=
  JS.isWordChar c || JS.isHyphen c = true
  /\ JS.isWhiteSpace c = false
  /\ JS.isUpper c = false.

(** The world after saving notes (title, content) one after the other. *)
Definition saveAll (toLowerCase : jsstring -> jsstring)
    (notes : list (jsstring * jsstring)) (w : world) : world :=
  foldl (fun w note =>
           after (handleSaveNote toLowerCase
                    (VString note.1) (VString note.2)) w)
    w notes.

(** The enumeration by file name, in the order of the code units. *)
Fixpoint nameBefore (a b : jsstring) : bool :=
  match a, b with
  | [], _ => true
  | _ :: _, [] => false
  | x :: a', y :: b' => (x <? y) || ((x =? y) && nameBefore a' b')
  end.

Definition byName (e1 e2 : jsstring * file) : bool := nameBefore e1.1 e2.1.

(** A title of 300 letters: its file name is longer than [Fs.NAME_MAX]. *)
Definition longTitle : jsstring := List.repeat 97 300.

(** A world where [NOTES_DIR] does not exist yet. *)
Definition freshWorld : world := {| notesDir := None; clock := 0 |}.

(** A world whose directory holds one file, not written by the server. *)
Definition backupWorld : world :=
  {| notesDir :=
       Some {[ JS.str "my-notes.md.bak.md" := {| bytes := []; mtime := 0 |} ]};
     clock := 0 |}.

(** ** The slug and the title as the specification words them *)

Module Reference.

(** Trim leading and trailing whitespace. *)
Fixpoint stripLeading (s : jsstring) : jsstring :=
  match s with
  | [] => []
  | c :: r => if JS.isWhiteSpace c then stripLeading r else c :: r
  end.

Fixpoint stripTrailing (s : jsstring) : jsstring :=
  match s with
  | [] => []
  | c :: r =>
      match stripTrailing r with
      | [] => if JS.isWhiteSpace c then [] else [c]
      | r' => c :: r'
      end
  end.

(** Remove every character that is not a word character, whitespace, or
    hyphen. *)
Definition keepAllowed (s : jsstring) : jsstring :=
  List.filter
    (fun c => JS.isWordChar c || JS.isWhiteSpace c || JS.isHyphen c) s.

(** Replace each run of characters of a class with one [h]: a character of
    the class is dropped when the run goes on after it, and becomes [h] when
    it is the last of its run. *)
Fixpoint runsToOne (cls : Z -> bool) (h : Z) (s : jsstring) : jsstring :=
  match s with
  | [] => []
  | c :: r =>
      if cls c then
        match r with
        | d :: _ => if cls d then runsToOne cls h r else h :: runsToOne cls h r
        | [] => [h]
        end
      else c :: runsToOne cls h r
  end.

Definition slugify (lowerCase : jsstring -> jsstring) (text : jsstring)
    : jsstring :=
  runsToOne JS.isHyphen JS.HYPHEN
    (runsToOne JS.isWhiteSpace JS.HYPHEN
       (keepAllowed (stripTrailing (stripLeading (lowerCase text))))).

(** The title of a listed file: its name without the ".md" extension, with
    spaces for hyphens. *)
Definition removeExtension (file : jsstring) : jsstring :=
  if JS.endsWith file (JS.str ".md")
  then take (length file - length (JS.str ".md")) file
  else file.

Definition displayTitle (file : jsstring) : jsstring :=
  List.map (fun c => if JS.isHyphen c then JS.SPACE else c)
    (removeExtension file).

End Reference.

(** ** The tool registry *)

(** A property of an input schema: its name, its [type] and its
    [description]. *)
Record schemaProperty := {
  propertyName : jsstring;
  propertyType : jsstring;
  propertyDescription : jsstring
}.

Record inputSchema := {
  schemaType : jsstring;
  schemaProperties : list schemaProperty;
  schemaRequired : list jsstring
}.

Record tool := {
  toolName : jsstring;
  toolDescription : jsstring;
  toolInputSchema : inputSchema
}.

(** The list that the handler registered for [ListToolsRequestSchema]
    returns. *)
Definition tools : list tool :=
  [ {| toolName := JS.str "save_note";
       toolDescription :=
         JS.str "Save a note with a title and content. Creates a markdown file in ~/dev-notes/";
       toolInputSchema :=
         {| schemaType := JS.str "object";
            schemaProperties :=
              [ {| propertyName := JS.str "title";
                   propertyType := JS.str "string";
                   propertyDescription :=
                     JS.str "The title of the note (will be converted to filename)" |};
                {| propertyName := JS.str "content";
                   propertyType := JS.str "string";
                   propertyDescription :=
                     JS.str "The content of the note in markdown format" |} ];
            schemaRequired := [JS.str "title"; JS.str "content"] |} |};
    {| toolName := JS.str "list_notes";
       toolDescription :=
         JS.str "List all available notes in ~/dev-notes/ with their titles and last-modified dates";
       toolInputSchema :=
         {| schemaType := JS.str "object";
            schemaProperties := [];
            schemaRequired := [] |} |};
    {| toolName := JS.str "read_note";
       toolDescription :=
         JS.str "Read and return the contents of a specific note";
       toolInputSchema :=
         {| schemaType := JS.str "object";
            schemaProperties :=
              [ {| propertyName := JS.str "title";
                   propertyType := JS.str "string";
                   propertyDescription :=
                     JS.str "The title of the note to read" |} ];
            schemaRequired := [JS.str "title"] |} |} ].

Definition listTools : M (list tool) := ret tools.




(** [String.prototype.toWellFormed]: every surrogate that is not half of a
    pair becomes U+FFFD. *)
Fixpoint toWellFormed (s : jsstring) : jsstring :=
  match s with
  | [] => []
  | c :: r =>
      if Utf8.isHighSurrogate c then
        match r with
        | d :: r' =>
            if Utf8.isLowSurrogate d then c :: d :: toWellFormed r'
            else Utf8.REPLACEMENT :: toWellFormed r
        | [] => [Utf8.REPLACEMENT]
        end
      else if Utf8.isLowSurrogate c then Utf8.REPLACEMENT :: toWellFormed r
      else c :: toWellFormed r
  end.

(** A code unit of a file name as the listing shows it: a space for a
    hyphen. *)
Definition spaced (c : Z) : Z := if JS.isHyphen c then JS.SPACE else c.

(** The class that the first replacement of [slugify] keeps: word
    characters, whitespace and the hyphen. *)
Definition isKept (c : Z) : bool :=
  JS.isWordChar c || JS.isWhiteSpace c || JS.isHyphen c.

(** * Properties *)

(** ** Facts about the string primitives *)

Section StringFacts.

Implicit Types (s r : jsstring) (c : Z) (p cls : Z -> bool).

Lemma Forall_dropWhile (P : Z -> Prop) p s :
  Forall P s -> Forall P (JS.dropWhile p s).
Proof.
  induction 1 as [|c r Hc Hr IH]; simpl; [constructor|].
  destruct (p c); [exact IH | by constructor].
Qed.

Lemma dropWhile_head_false p c r :
  p c = false -> JS.dropWhile p (c :: r) = c :: r.
Proof. intros H. simpl. by rewrite H. Qed.

Lemma dropWhile_none p s :
  Forall (fun c => p c = false) s -> JS.dropWhile p s = s.
Proof. destruct 1 as [|c r Hc _]; [done | by apply dropWhile_head_false]. Qed.

Lemma Forall_trim (P : Z -> Prop) s : Forall P s -> Forall P (JS.trim s).
Proof.
  intros H. unfold JS.trim, JS.trimEnd, JS.trimStart.
  apply Forall_rev, Forall_dropWhile, Forall_rev, Forall_dropWhile, H.
Qed.

Lemma trim_none s :
  Forall (fun c => JS.isWhiteSpace c = false) s -> JS.trim s = s.
Proof.
  intros H. unfold JS.trim, JS.trimEnd, JS.trimStart.
  rewrite (dropWhile_none _ s H).
  rewrite dropWhile_none; [apply rev_involutive | by apply Forall_rev].
Qed.

Lemma replaceClass_delete cls s :
  JS.replaceClass cls [] s = List.filter (fun c => negb (cls c)) s.
Proof.
  induction s as [|c r IH]; simpl; [done|].
  destruct (cls c); simpl; by rewrite IH.
Qed.

Lemma replaceClass_none cls repl s :
  Forall (fun c => cls c = false) s -> JS.replaceClass cls repl s = s.
Proof.
  induction 1 as [|c r Hc _ IH]; simpl; [done|]. by rewrite Hc, IH.
Qed.

Lemma Forall_replaceClass (P : Z -> Prop) cls repl s :
  Forall P repl ->
  Forall (fun c => cls c = false -> P c) s ->
  Forall P (JS.replaceClass cls repl s).
Proof.
  intros Hrepl. induction 1 as [|c r Hc _ IH]; simpl; [constructor|].
  destruct (cls c) eqn:E.
  - apply Forall_app; split; assumption.
  - constructor; auto.
Qed.

Lemma Forall_replaceRuns (P : Z -> Prop) cls repl b s :
  Forall P repl ->
  Forall (fun c => cls c = false -> P c) s ->
  Forall P (JS.replaceRuns cls repl b s).
Proof.
  intros Hrepl H. revert b.
  induction H as [|c r Hc _ IH]; intros b; simpl; [constructor|].
  destruct (cls c) eqn:E.
  - apply Forall_app; split; [destruct b; [constructor | assumption] | apply IH].
  - constructor; auto.
Qed.

Lemma replaceRuns_none cls repl b s :
  Forall (fun c => cls c = false) s -> JS.replaceRuns cls repl b s = s.
Proof.
  intros H. revert b.
  induction H as [|c r Hc _ IH]; intros b; simpl; [done|].
  by rewrite Hc, IH.
Qed.

End StringFacts.

Section RunFacts.

Variables (cls : Z -> bool) (h : Z).
Implicit Types (s r : jsstring) (b : bool).

Lemma noAdjacent_lookup s i c d :
  JS.noAdjacent cls s ->
  s !! i = Some c -> s !! S i = Some d -> cls c = true -> cls d = false.
Proof.
  revert i. induction s as [|x r IH]; intros i Hs Hi HSi Hc; [done|].
  destruct Hs as [Hx Hr].
  destruct i as [|i]; simpl in *.
  - injection Hi as ->. destruct r as [|y r']; [done|].
    injection HSi as ->. by apply Hx.
  - by eapply IH.
Qed.

Lemma replaceRuns_noAdjacent b s :
  cls h = true ->
  JS.noAdjacent cls (JS.replaceRuns cls [h] b s)
  /\ (b = true -> JS.startsClass cls (JS.replaceRuns cls [h] b s) = false).
Proof.
  intros Hh. revert b. induction s as [|c r IH]; intros b; simpl; [done|].
  destruct (cls c) eqn:Ec.
  - destruct (IH true) as [Hadj Hstart].
    destruct b; simpl; [by split|].
    split; [|done]. split; [|done]. intros _. by apply Hstart.
  - destruct (IH false) as [Hadj _]. simpl. split; [|done].
    split; [|done]. congruence.
Qed.

Lemma replaceRuns_fixed b s :
  (forall c, cls c = true -> c = h) ->
  JS.noAdjacent cls s ->
  (b = true -> JS.startsClass cls s = false) ->
  JS.replaceRuns cls [h] b s = s.
Proof.
  intros Hcls. revert b. induction s as [|c r IH]; intros b Hadj Hb; [done|].
  destruct Hadj as [Hc Hr]. simpl in *.
  destruct (cls c) eqn:Ec.
  - destruct b; [by specialize (Hb eq_refl)|].
    simpl. rewrite IH by auto. f_equal. symmetry. by apply Hcls.
  - f_equal. apply IH; [done | congruence].
Qed.

(** The scan with a flag and the look-ahead of the reference agree. *)
Lemma replaceRuns_runsToOne s :
  JS.replaceRuns cls [h] false s = Reference.runsToOne cls h s
  /\ (if JS.startsClass cls s
      then h :: JS.replaceRuns cls [h] true s
      else JS.replaceRuns cls [h] true s) = Reference.runsToOne cls h s.
Proof.
  induction s as [|c r IH]; [done|].
  destruct IH as [IH1 IH2]. simpl.
  destruct (cls c) eqn:Ec; simpl.
  - assert (h :: JS.replaceRuns cls [h] true r
            = match r with
              | [] => [h]
              | d :: _ =>
                  if cls d then Reference.runsToOne cls h r
                  else h :: Reference.runsToOne cls h r
              end) as E.
    { destruct r as [|d r']; [done|]. cbn [JS.startsClass] in IH2.
      destruct (cls d) eqn:Ed; [exact IH2 | by rewrite IH2]. }
    by split.
  - by rewrite IH1.
Qed.

End RunFacts.

Section TrimFacts.

Implicit Types (s r l : jsstring) (p : Z -> bool).

Lemma stripLeading_trimStart s : Reference.stripLeading s = JS.trimStart s.
Proof.
  unfold JS.trimStart. induction s as [|c r IH]; simpl; [done|].
  by destruct (JS.isWhiteSpace c).
Qed.

Lemma dropWhile_snoc p l c :
  JS.dropWhile p (l ++ [c])
  = match JS.dropWhile p l with
    | [] => if p c then [] else [c]
    | l' => l' ++ [c]
    end.
Proof.
  induction l as [|x l IH]; simpl; [done|].
  destruct (p x); [exact IH | done].
Qed.

Lemma stripTrailing_trimEnd s : Reference.stripTrailing s = JS.trimEnd s.
Proof.
  unfold JS.trimEnd. induction s as [|c r IH]; [done|].
  cbn [Reference.stripTrailing rev]. rewrite IH, dropWhile_snoc.
  destruct (JS.dropWhile JS.isWhiteSpace (rev r)) as [|x l]; simpl.
  - by destruct (JS.isWhiteSpace c).
  - rewrite rev_app_distr. simpl.
    destruct (rev l ++ [x]) eqn:E; [by destruct (rev l) | done].
Qed.

Lemma keepAllowed_replaceClass s :
  JS.replaceClass
    (fun c => negb (JS.isWordChar c || JS.isWhiteSpace c || JS.isHyphen c))
    (JS.str "") s
  = Reference.keepAllowed s.
Proof.
  change (JS.str "") with (@nil Z). rewrite replaceClass_delete.
  unfold Reference.keepAllowed. induction s as [|c r IH]; simpl; [done|].
  rewrite negb_involutive, IH. done.
Qed.

End TrimFacts.

(** ** The slug *)

Ltac unfold_classes :=
  unfold slugUnit, JS.isWordChar, JS.isWhiteSpace, JS.isHyphen, JS.isUpper,
    JS.isLower, JS.isDigit, JS.isAscii, JS.asciiLower, JS.HYPHEN in *.

Ltac class_arith :=
  unfold_classes;
  repeat match goal with
         | H : _ /\ _ |- _ => destruct H
         end;
  rewrite ?andb_true_iff, ?orb_true_iff, ?andb_false_iff, ?orb_false_iff,
    ?negb_true_iff, ?negb_false_iff,
    ?andb_true_iff, ?orb_true_iff, ?andb_false_iff, ?orb_false_iff,
    ?Z.leb_le, ?Z.ltb_lt, ?Z.eqb_eq, ?Z.leb_gt, ?Z.ltb_ge, ?Z.eqb_neq in *;
  lia.

Lemma isHyphen_eq c : JS.isHyphen c = true -> c = JS.HYPHEN.
Proof. intros H. class_arith. Qed.

Lemma slugUnit_hyphen : slugUnit JS.HYPHEN.
Proof. by vm_compute. Qed.

Lemma slugUnit_ascii c : slugUnit c -> JS.isAscii c = true.
Proof. intros H. class_arith. Qed.

Lemma slugUnit_lower c : slugUnit c -> JS.asciiLower c = c.
Proof. intros (_ & _ & H). unfold JS.asciiLower. by rewrite H. Qed.

Lemma asciiLower_not_upper c : JS.isUpper (JS.asciiLower c) = false.
Proof.
  unfold JS.asciiLower. destruct (JS.isUpper c) eqn:E; [|done]. class_arith.
Qed.

(** The ASCII lower-casing has the two properties that the theorems about
    [slugify] ask of [toLowerCase]. *)
Lemma asciiLowerCase_ascii s :
  Forall (fun c => JS.isAscii c = true) s ->
  JS.asciiLowerCase s = List.map JS.asciiLower s.
Proof. done. Qed.

Lemma asciiLowerCase_no_upper s :
  Forall (fun c => JS.isUpper c = false) (JS.asciiLowerCase s).
Proof.
  unfold JS.asciiLowerCase.
  induction s as [|c r IH]; constructor; [apply asciiLower_not_upper | exact IH].
Qed.

Section Slug.

Variable toLowerCase : jsstring -> jsstring.

(** On a string of ASCII code units the lower-casing of the runtime is the
    ASCII one. *)
Hypothesis toLowerCase_ascii :
  forall s, Forall (fun c => JS.isAscii c = true) s ->
            toLowerCase s = List.map JS.asciiLower s.

(** No code point lower-cases to an upper-case ASCII letter. *)
Hypothesis toLowerCase_no_upper :
  forall s, Forall (fun c => JS.isUpper c = false) (toLowerCase s).

Lemma slugify_shape text :
  Forall slugUnit (slugify toLowerCase text)
  /\ JS.noAdjacent JS.isHyphen (slugify toLowerCase text).
Proof using toLowerCase_no_upper.
  unfold slugify, JS.replacePlus.
  change (JS.str "-") with [JS.HYPHEN]. change (JS.str "") with (@nil Z).
  split; [|by apply replaceRuns_noAdjacent].
  apply Forall_replaceRuns; [by repeat constructor; apply slugUnit_hyphen|].
  eapply Forall_impl; [|by intros c Hc _; exact Hc].
  apply Forall_replaceRuns; [by repeat constructor; apply slugUnit_hyphen|].
  eapply Forall_impl with
    (P := fun c => JS.isWordChar c || JS.isWhiteSpace c || JS.isHyphen c = true
                   /\ JS.isUpper c = false).
  { apply Forall_replaceClass; [constructor|].
    eapply Forall_impl; [apply Forall_trim, toLowerCase_no_upper|].
    intros c Hup Hc. cbv beta in *. apply negb_false_iff in Hc. by split. }
  intros c [Hc Hup] Hws. unfold slugUnit. rewrite Hws in Hc.
  rewrite orb_false_r in Hc. done.
Qed.

(** C9.  Whatever the input, the slug holds no whitespace, no upper-case
    letter, nothing but word characters and hyphens, and no two hyphens in a
    row; so the file name, the slug followed by ".md", holds no NUL, no slash
    and no backslash. *)
Theorem slugify_output_filesystem_safe (text : jsstring) :
  Forall (fun c => JS.isWhiteSpace c = false) (slugify toLowerCase text)
  /\ Forall (fun c => JS.isUpper c = false) (slugify toLowerCase text)
  /\ Forall (fun c => JS.isWordChar c || JS.isHyphen c = true)
       (slugify toLowerCase text)
  /\ (forall i : nat,
        slugify toLowerCase text !! i = Some JS.HYPHEN ->
        slugify toLowerCase text !! S i <> Some JS.HYPHEN)
  /\ Forall (fun c => c <> 0 /\ c <> 47 /\ c <> 92)
       (slugify toLowerCase text ++ JS.str ".md").
Proof using toLowerCase_no_upper.
  destruct (slugify_shape text) as [Hunits Hadj].
  split; [|split; [|split; [|split]]].
  - eapply Forall_impl; [exact Hunits | by intros c (_ & H & _)].
  - eapply Forall_impl; [exact Hunits | by intros c (_ & _ & H)].
  - eapply Forall_impl; [exact Hunits | by intros c (H & _ & _)].
  - intros i Hi HSi.
    by pose proof (noAdjacent_lookup JS.isHyphen _ i _ _ Hadj Hi HSi eq_refl).
  - apply Forall_app. split.
    + eapply Forall_impl; [exact Hunits|]. intros c Hc. class_arith.
    + by vm_compute; repeat constructor.
Qed.

(** A string that has the shape of a slug is left as it is. *)
Lemma slugify_fixed y :
  Forall slugUnit y -> JS.noAdjacent JS.isHyphen y ->
  slugify toLowerCase y = y.
Proof using toLowerCase_ascii.
  intros Hunits Hadj. unfold slugify, JS.replacePlus.
  change (JS.str "-") with [JS.HYPHEN].
  rewrite toLowerCase_ascii
    by (eapply Forall_impl; [exact Hunits | apply slugUnit_ascii]).
  assert (List.map JS.asciiLower y = y) as ->.
  { clear Hadj. induction Hunits as [|c r Hc _ IH]; simpl; [done|].
    by rewrite IH, slugUnit_lower. }
  rewrite trim_none
    by (eapply Forall_impl; [exact Hunits | by intros c (_ & H & _)]).
  rewrite replaceClass_none.
  2:{ eapply Forall_impl; [exact Hunits|]. intros c (H & _ & _). cbv beta.
      apply negb_false_iff. apply orb_true_iff in H as [H|H]; rewrite H;
        by rewrite ?orb_true_r. }
  rewrite (replaceRuns_none JS.isWhiteSpace)
    by (eapply Forall_impl; [exact Hunits | by intros c (_ & H & _)]).
  apply replaceRuns_fixed; [apply isHyphen_eq | exact Hadj | done].
Qed.

(** C2.  [slugify] is idempotent. *)
Theorem slugify_idempotent (x : jsstring) :
  slugify toLowerCase (slugify toLowerCase x) = slugify toLowerCase x.
Proof using toLowerCase_ascii toLowerCase_no_upper.
  destruct (slugify_shape x) as [Hunits Hadj]. by apply slugify_fixed.
Qed.

(** The chain of regular-expression replacements computes the pipeline that
    the specification describes. *)
Lemma slugify_reference text :
  slugify toLowerCase text = Reference.slugify toLowerCase text.
Proof using Type.
  unfold slugify, Reference.slugify, JS.replacePlus, JS.trim.
  change (JS.str "-") with [JS.HYPHEN].
  rewrite keepAllowed_replaceClass.
  rewrite <- stripTrailing_trimEnd, <- stripLeading_trimStart.
  rewrite (proj1 (replaceRuns_runsToOne JS.isWhiteSpace JS.HYPHEN _)).
  apply (proj1 (replaceRuns_runsToOne JS.isHyphen JS.HYPHEN _)).
Qed.

(** C3.  [slugify] returns what the reference pipeline returns (lower-case,
    trim, drop what is not a word character, whitespace or hyphen, one hyphen
    for each run of whitespace, one hyphen for each run of hyphens), and
    "Project Ideas" becomes "project-ideas". *)
Theorem slugify_is_reference_pipeline :
  (forall text, slugify toLowerCase text = Reference.slugify toLowerCase text)
  /\ slugify toLowerCase (JS.str "Project Ideas") = JS.str "project-ideas".
Proof using toLowerCase_ascii.
  split; [apply slugify_reference|].
  unfold slugify. rewrite toLowerCase_ascii; [by vm_compute|].
  by vm_compute; repeat constructor.
Qed.

End Slug.

Lemma slugify_output_filesystem_safe_witness :
  Forall (fun c => JS.isWhiteSpace c = false)
    (slugify JS.asciiLowerCase (JS.str "  Hello,   World -- x_ Y!  "))
  /\ Forall (fun c => JS.isUpper c = false)
       (slugify JS.asciiLowerCase (JS.str "  Hello,   World -- x_ Y!  "))
  /\ Forall (fun c => JS.isWordChar c || JS.isHyphen c = true)
       (slugify JS.asciiLowerCase (JS.str "  Hello,   World -- x_ Y!  "))
  /\ (forall i : nat,
        slugify JS.asciiLowerCase (JS.str "  Hello,   World -- x_ Y!  ") !! i
        = Some JS.HYPHEN ->
        slugify JS.asciiLowerCase (JS.str "  Hello,   World -- x_ Y!  ") !! S i
        <> Some JS.HYPHEN)
  /\ Forall (fun c => c <> 0 /\ c <> 47 /\ c <> 92)
       (slugify JS.asciiLowerCase (JS.str "  Hello,   World -- x_ Y!  ")
        ++ JS.str ".md").
Proof.
  exact (slugify_output_filesystem_safe JS.asciiLowerCase
           asciiLowerCase_no_upper (JS.str "  Hello,   World -- x_ Y!  ")).
Defined.

Lemma slugify_idempotent_witness :
  slugify JS.asciiLowerCase (slugify JS.asciiLowerCase (JS.str " - A  b!"))
  = slugify JS.asciiLowerCase (JS.str " - A  b!").
Proof.
  exact (slugify_idempotent JS.asciiLowerCase asciiLowerCase_ascii
           asciiLowerCase_no_upper (JS.str " - A  b!")).
Defined.

Lemma slugify_is_reference_pipeline_witness :
  (forall text,
     slugify JS.asciiLowerCase text = Reference.slugify JS.asciiLowerCase text)
  /\ slugify JS.asciiLowerCase (JS.str "Project Ideas")
     = JS.str "project-ideas".
Proof.
  exact (slugify_is_reference_pipeline JS.asciiLowerCase asciiLowerCase_ascii).
Defined.

(** ** UTF-8 round trip *)

Section Utf8Facts.

Implicit Types (b cp : Z) (bs : list Z) (st : Utf8.decoder).

Ltac bounds :=
  cbn [Utf8.bytesNeeded Utf8.codePoint Utf8.lowerBoundary Utf8.upperBoundary
       Utf8.idle] in *;
  repeat match goal with
         | |- context [?x =? ?y] => destruct (Z.eqb_spec x y)
         end;
  Z.div_mod_to_equations; lia.

Ltac cond_true := apply andb_true_iff; split; apply Z.leb_le; bounds.

Lemma decodeByte_ascii b :
  b <= 0x7F -> Utf8.decodeByte Utf8.idle b = ([b], Utf8.idle).
Proof.
  intros H. unfold Utf8.decodeByte, Utf8.leadByte. cbn [Utf8.bytesNeeded Utf8.idle].
  change (0 =? 0) with true. cbv iota.
  by replace (b <=? 0x7F) with true by (symmetry; apply Z.leb_le; lia).
Qed.

Lemma decodeByte_lead2 b :
  0xC2 <= b <= 0xDF ->
  Utf8.decodeByte Utf8.idle b
  = ([], {| Utf8.codePoint := b - 0xC0; Utf8.bytesNeeded := 1;
            Utf8.lowerBoundary := 0x80; Utf8.upperBoundary := 0xBF |}).
Proof.
  intros H. unfold Utf8.decodeByte, Utf8.leadByte. cbn [Utf8.bytesNeeded Utf8.idle].
  change (0 =? 0) with true. cbv iota.
  replace (b <=? 0x7F) with false by (symmetry; apply Z.leb_gt; lia).
  by replace ((0xC2 <=? b) && (b <=? 0xDF)) with true by (symmetry; cond_true).
Qed.

Lemma decodeByte_lead3 b :
  0xE0 <= b <= 0xEF ->
  Utf8.decodeByte Utf8.idle b
  = ([], {| Utf8.codePoint := b - 0xE0; Utf8.bytesNeeded := 2;
            Utf8.lowerBoundary := if b =? 0xE0 then 0xA0 else 0x80;
            Utf8.upperBoundary := if b =? 0xED then 0x9F else 0xBF |}).
Proof.
  intros H. unfold Utf8.decodeByte, Utf8.leadByte. cbn [Utf8.bytesNeeded Utf8.idle].
  change (0 =? 0) with true. cbv iota.
  replace (b <=? 0x7F) with false by (symmetry; apply Z.leb_gt; lia).
  replace ((0xC2 <=? b) && (b <=? 0xDF)) with false
    by (symmetry; apply andb_false_iff; right; apply Z.leb_gt; lia).
  by replace ((0xE0 <=? b) && (b <=? 0xEF)) with true by (symmetry; cond_true).
Qed.

Lemma decodeByte_lead4 b :
  0xF0 <= b <= 0xF4 ->
  Utf8.decodeByte Utf8.idle b
  = ([], {| Utf8.codePoint := b - 0xF0; Utf8.bytesNeeded := 3;
            Utf8.lowerBoundary := if b =? 0xF0 then 0x90 else 0x80;
            Utf8.upperBoundary := if b =? 0xF4 then 0x8F else 0xBF |}).
Proof.
  intros H. unfold Utf8.decodeByte, Utf8.leadByte. cbn [Utf8.bytesNeeded Utf8.idle].
  change (0 =? 0) with true. cbv iota.
  replace (b <=? 0x7F) with false by (symmetry; apply Z.leb_gt; lia).
  replace ((0xC2 <=? b) && (b <=? 0xDF)) with false
    by (symmetry; apply andb_false_iff; right; apply Z.leb_gt; lia).
  replace ((0xE0 <=? b) && (b <=? 0xEF)) with false
    by (symmetry; apply andb_false_iff; right; apply Z.leb_gt; lia).
  by replace ((0xF0 <=? b) && (b <=? 0xF4)) with true by (symmetry; cond_true).
Qed.

Lemma decodeByte_continue st b :
  1 < Utf8.bytesNeeded st ->
  Utf8.lowerBoundary st <= b <= Utf8.upperBoundary st ->
  Utf8.decodeByte st b
  = ([], {| Utf8.codePoint := Utf8.codePoint st * 64 + (b - 0x80);
            Utf8.bytesNeeded := Utf8.bytesNeeded st - 1;
            Utf8.lowerBoundary := 0x80; Utf8.upperBoundary := 0xBF |}).
Proof.
  intros Hn Hb. unfold Utf8.decodeByte.
  replace (Utf8.bytesNeeded st =? 0) with false by (symmetry; apply Z.eqb_neq; lia).
  replace ((b <? Utf8.lowerBoundary st) || (Utf8.upperBoundary st <? b))
    with false
    by (symmetry; apply orb_false_iff; split; apply Z.ltb_ge; lia).
  by replace (Utf8.bytesNeeded st =? 1) with false by (symmetry; apply Z.eqb_neq; lia).
Qed.

Lemma decodeByte_last st b :
  Utf8.bytesNeeded st = 1 ->
  Utf8.lowerBoundary st <= b <= Utf8.upperBoundary st ->
  Utf8.decodeByte st b = ([Utf8.codePoint st * 64 + (b - 0x80)], Utf8.idle).
Proof.
  intros Hn Hb. unfold Utf8.decodeByte. rewrite Hn.
  change (1 =? 0) with false. change (1 =? 1) with true. cbv iota.
  by replace ((b <? Utf8.lowerBoundary st) || (Utf8.upperBoundary st <? b))
    with false
    by (symmetry; apply orb_false_iff; split; apply Z.ltb_ge; lia).
Qed.

Lemma decodeFrom_cons st b bs :
  Utf8.decodeFrom st (b :: bs)
  = (Utf8.decodeByte st b).1 ++ Utf8.decodeFrom (Utf8.decodeByte st b).2 bs.
Proof. simpl. by destruct (Utf8.decodeByte st b). Qed.

(** The decoder reads back the bytes of a scalar value. *)
Lemma decodeFrom_encodeCodePoint cp bs :
  0 <= cp < 0x110000 -> cp < 0xD800 \/ 0xDFFF < cp ->
  Utf8.decodeFrom Utf8.idle (Utf8.encodeCodePoint cp ++ bs)
  = cp :: Utf8.decodeFrom Utf8.idle bs.
Proof.
  intros Hrange Hscalar. unfold Utf8.encodeCodePoint.
  destruct (Z.ltb_spec cp 0x80); [|destruct (Z.ltb_spec cp 0x800);
    [|destruct (Z.ltb_spec cp 0x10000)]]; cbn [app].
  - rewrite decodeFrom_cons, decodeByte_ascii by lia. done.
  - rewrite decodeFrom_cons, decodeByte_lead2 by bounds. cbn [fst snd app].
    rewrite decodeFrom_cons, decodeByte_last by bounds. cbn [fst snd app].
    f_equal. bounds.
  - rewrite decodeFrom_cons, decodeByte_lead3 by bounds. cbn [fst snd app].
    rewrite decodeFrom_cons, decodeByte_continue by bounds. cbn [fst snd app].
    rewrite decodeFrom_cons, decodeByte_last by bounds. cbn [fst snd app].
    f_equal. bounds.
  - rewrite decodeFrom_cons, decodeByte_lead4 by bounds. cbn [fst snd app].
    rewrite decodeFrom_cons, decodeByte_continue by bounds. cbn [fst snd app].
    rewrite decodeFrom_cons, decodeByte_continue by bounds. cbn [fst snd app].
    rewrite decodeFrom_cons, decodeByte_last by bounds. cbn [fst snd app].
    f_equal. bounds.
Qed.

Lemma decode_encodeCodePoint cp bs :
  0 <= cp < 0x110000 -> cp < 0xD800 \/ 0xDFFF < cp ->
  Utf8.decode (Utf8.encodeCodePoint cp ++ bs)
  = Utf8.codeUnits cp ++ Utf8.decode bs.
Proof.
  intros Hrange Hscalar. unfold Utf8.decode.
  by rewrite decodeFrom_encodeCodePoint.
Qed.

Lemma codeUnits_pair hi lo :
  Utf8.isHighSurrogate hi = true -> Utf8.isLowSurrogate lo = true ->
  0x10000 <= Utf8.pairCodePoint hi lo < 0x110000
  /\ Utf8.codeUnits (Utf8.pairCodePoint hi lo) = [hi; lo].
Proof.
  unfold Utf8.isHighSurrogate, Utf8.isLowSurrogate, Utf8.pairCodePoint,
    Utf8.codeUnits.
  rewrite !andb_true_iff, !Z.leb_le. intros Hhi Hlo. split; [lia|].
  replace (_ <? 0x10000) with false by (symmetry; apply Z.ltb_ge; lia).
  f_equal; [|f_equal]; Z.div_mod_to_equations; lia.
Qed.

Lemma decode_encode_bounded (n : nat) s :
  (length s <= n)%nat -> Utf8.wellFormed s = true ->
  Utf8.decode (Utf8.encode s) = s.
Proof.
  revert s. induction n as [|n IH]; intros [|c r] Hlen Hwf;
    try done; simpl in Hlen; [lia|].
  cbn [Utf8.encode Utf8.wellFormed] in *.
  destruct (Utf8.isHighSurrogate c) eqn:Ehi.
  - destruct r as [|d r']; [done|].
    apply andb_true_iff in Hwf as [Elo Hwf]. rewrite Elo.
    destruct (codeUnits_pair c d Ehi Elo) as [Hcp Hunits].
    rewrite decode_encodeCodePoint, Hunits by lia.
    simpl in Hlen. rewrite IH by (done || lia). done.
  - apply andb_true_iff in Hwf as [Hwf Hr].
    apply andb_true_iff in Hwf as [Hwf Elo].
    apply andb_true_iff in Hwf as [H0 H1].
    apply negb_true_iff in Elo. rewrite Elo.
    apply Z.leb_le in H0. apply Z.ltb_lt in H1.
    unfold Utf8.isHighSurrogate, Utf8.isLowSurrogate in Ehi, Elo.
    rewrite andb_false_iff, !Z.leb_gt in Ehi, Elo.
    rewrite decode_encodeCodePoint by lia.
    unfold Utf8.codeUnits.
    replace (c <? 0x10000) with true by (symmetry; apply Z.ltb_lt; lia).
    rewrite IH by (done || lia). done.
Qed.

(** Writing a well-formed string as UTF-8 and reading the bytes back gives
    the string. *)
Lemma decode_encode s :
  Utf8.wellFormed s = true -> Utf8.decode (Utf8.encode s) = s.
Proof. by apply (decode_encode_bounded (length s)). Qed.

Lemma decode_replacement bs :
  Utf8.decode (Utf8.encodeCodePoint Utf8.REPLACEMENT ++ bs)
  = Utf8.REPLACEMENT :: Utf8.decode bs.
Proof. by rewrite decode_encodeCodePoint by (by vm_compute; auto). Qed.

Lemma wellFormed_of_decode_encode_bounded (n : nat) s :
  (length s <= n)%nat ->
  Forall (fun c => 0 <= c < 0x10000) s ->
  Utf8.decode (Utf8.encode s) = s -> Utf8.wellFormed s = true.
Proof.
  revert s. induction n as [|n IH]; intros [|c r] Hlen Hunits Hrt;
    try done; simpl in Hlen; [lia|].
  apply Forall_cons in Hunits as [Hc Hunits].
  cbn [Utf8.encode Utf8.wellFormed] in *.
  assert (Utf8.isHighSurrogate c || Utf8.isLowSurrogate c = true ->
          c <> Utf8.REPLACEMENT) as Hsur.
  { unfold Utf8.isHighSurrogate, Utf8.isLowSurrogate, Utf8.REPLACEMENT.
    rewrite orb_true_iff, !andb_true_iff, !Z.leb_le. lia. }
  destruct (Utf8.isHighSurrogate c) eqn:Ehi.
  - destruct r as [|d r'].
    + rewrite <- (app_nil_r (Utf8.encodeCodePoint _)), decode_replacement in Hrt.
      exfalso. apply Hsur; [done | congruence].
    + destruct (Utf8.isLowSurrogate d) eqn:Elo.
      * destruct (codeUnits_pair c d Ehi Elo) as [Hcp Hpair].
        rewrite decode_encodeCodePoint, Hpair in Hrt by lia.
        injection Hrt as Hrt. apply Forall_cons in Hunits as [_ Hunits].
        simpl in Hlen. apply IH; (done || lia).
      * rewrite decode_replacement in Hrt.
        exfalso. apply Hsur; [done | congruence].
  - destruct (Utf8.isLowSurrogate c) eqn:Elo.
    + rewrite decode_replacement in Hrt.
      exfalso. apply Hsur; [done | congruence].
    + unfold Utf8.isHighSurrogate, Utf8.isLowSurrogate in Ehi, Elo.
      rewrite andb_false_iff, !Z.leb_gt in Ehi, Elo.
      rewrite decode_encodeCodePoint in Hrt by lia.
      unfold Utf8.codeUnits in Hrt.
      replace (c <? 0x10000) with true in Hrt by (symmetry; apply Z.ltb_lt; lia).
      injection Hrt as Hrt.
      replace (0 <=? c) with true by (symmetry; apply Z.leb_le; lia).
      replace (c <? 0x10000) with true by (symmetry; apply Z.ltb_lt; lia).
      cbn [andb negb]. apply IH; (done || lia).
Qed.

(** The round trip is exact for the well-formed strings and for no other
    string of 16-bit code units. *)
Lemma decode_encode_iff s :
  Forall (fun c => 0 <= c < 0x10000) s ->
  Utf8.decode (Utf8.encode s) = s <-> Utf8.wellFormed s = true.
Proof.
  intros Hunits. split; [|apply decode_encode].
  by apply (wellFormed_of_decode_encode_bounded (length s)).
Qed.

End Utf8Facts.

(** ** File names and the enumeration of the directory *)

Section FsFacts.

Lemma place_Permutation {A} (earlier : A -> A -> bool) (x : A) (l : list A) :
  Fs.place earlier x l ≡ₚ x :: l.
Proof.
  induction l as [|y r IH]; simpl; [done|].
  destruct (earlier x y); [done|]. rewrite IH. apply Permutation_swap.
Qed.

(** Arranging the entries loses none and repeats none. *)
Lemma arrange_Permutation {A} (earlier : A -> A -> bool) (l : list A) :
  Fs.arrange earlier l ≡ₚ l.
Proof.
  induction l as [|x l IH]; [done|]. unfold Fs.arrange in *. simpl.
  by rewrite place_Permutation, IH.
Qed.

Lemma encode_ascii (s : jsstring) :
  Forall (fun c => c < 0x80) s -> Utf8.encode s = s.
Proof.
  induction 1 as [|c r Hc _ IH]; [done|]. cbn [Utf8.encode].
  unfold Utf8.isHighSurrogate, Utf8.isLowSurrogate, Utf8.encodeCodePoint.
  replace (0xD800 <=? c) with false by (symmetry; apply Z.leb_gt; lia).
  replace (0xDC00 <=? c) with false by (symmetry; apply Z.leb_gt; lia).
  replace (c <? 0x80) with true by (symmetry; apply Z.ltb_lt; lia).
  cbn [andb app]. by rewrite IH.
Qed.

(** The code units of a slug are word characters and hyphens, whatever the
    lower-casing. *)
Lemma slugify_word_or_hyphen (toLowerCase : jsstring -> jsstring) text :
  Forall (fun c => JS.isWordChar c || JS.isHyphen c = true)
    (slugify toLowerCase text).
Proof.
  unfold slugify, JS.replacePlus.
  change (JS.str "-") with [JS.HYPHEN]. change (JS.str "") with (@nil Z).
  apply Forall_replaceRuns; [by repeat constructor|].
  eapply Forall_impl; [|by intros c Hc _; exact Hc].
  apply Forall_replaceRuns; [by repeat constructor|].
  apply Forall_forall. intros c Hc Hws.
  assert (Forall (fun c => JS.isWordChar c || JS.isWhiteSpace c
                           || JS.isHyphen c = true)
            (JS.replaceClass
               (fun c => negb (JS.isWordChar c || JS.isWhiteSpace c
                               || JS.isHyphen c))
               [] (JS.trim (toLowerCase text)))) as Hkept.
  { apply Forall_replaceClass; [constructor|].
    apply Forall_forall. intros x _ Hx. by apply negb_false_iff in Hx. }
  rewrite Forall_forall in Hkept. specialize (Hkept c Hc).
  rewrite Hws, orb_false_r in Hkept. exact Hkept.
Qed.

(** The file name of a note is written in as many bytes as it has code
    units. *)
Lemma nameTooLong_slug (toLowerCase : jsstring -> jsstring) text :
  Fs.nameTooLong (slugify toLowerCase text ++ JS.str ".md")
  = (Fs.NAME_MAX <? length (slugify toLowerCase text ++ JS.str ".md"))%nat.
Proof.
  unfold Fs.nameTooLong. rewrite encode_ascii; [done|].
  apply Forall_app. split; [|by vm_compute; repeat constructor].
  eapply Forall_impl; [apply slugify_word_or_hyphen|].
  intros c Hc. class_arith.
Qed.

End FsFacts.

(** ** The handlers *)

Section Handlers.

Variable toLowerCase : jsstring -> jsstring.
Variable isoDate : Z -> jsstring.
Variable earlier : jsstring * file -> jsstring * file -> bool.

Implicit Types (w : world) (T C name : jsstring) (d : gmap (list Z) file).

Lemma ensureNotesDir_spec w : ensureNotesDir w = (Returns tt, withNotesDir w).
Proof. by destruct w as [[d|] t]. Qed.

Lemma contents_withNotesDir w : contents (withNotesDir w) = contents w.
Proof. done. Qed.

(** What [handleSaveNote] does with a string title and a string content. *)
Lemma handleSaveNote_cases T C w :
  handleSaveNote toLowerCase (VString T) (VString C) w
  = if (Fs.NAME_MAX <? length (slugify toLowerCase T ++ JS.str ".md"))%nat
    then (Throws ENAMETOOLONG, withNotesDir w)
    else
      (Returns {| type := JS.str "text";
                  text := JS.str "Note saved successfully: "
                          ++ slugify toLowerCase T ++ JS.str ".md" |},
       {| notesDir :=
            Some (<[slugify toLowerCase T ++ JS.str ".md" :=
                      {| bytes := Utf8.encode C; mtime := clock w |}]>
                    (files w));
          clock := clock w |}).
Proof.
  unfold handleSaveNote, bind. rewrite ensureNotesDir_spec.
  cbn [slugifyVal ret]. unfold Fs.writeFileSync.
  cbn [notesDir withNotesDir]. rewrite nameTooLong_slug.
  by destruct (_ <? _)%nat.
Qed.

Lemma handleSaveNote_spec T C w :
  (length (slugify toLowerCase T ++ JS.str ".md") <= Fs.NAME_MAX)%nat ->
  handleSaveNote toLowerCase (VString T) (VString C) w
  = (Returns {| type := JS.str "text";
                text := JS.str "Note saved successfully: "
                        ++ slugify toLowerCase T ++ JS.str ".md" |},
     {| notesDir :=
          Some (<[slugify toLowerCase T ++ JS.str ".md" :=
                    {| bytes := Utf8.encode C; mtime := clock w |}]> (files w));
        clock := clock w |}).
Proof.
  intros Hfits. rewrite handleSaveNote_cases.
  by replace (_ <? _)%nat with false by (symmetry; apply Nat.ltb_ge; lia).
Qed.

Lemma handleSaveNote_too_long T C w :
  (Fs.NAME_MAX < length (slugify toLowerCase T ++ JS.str ".md"))%nat ->
  handleSaveNote toLowerCase (VString T) (VString C) w
  = (Throws ENAMETOOLONG, withNotesDir w).
Proof.
  intros Hlong. rewrite handleSaveNote_cases.
  by replace (_ <? _)%nat with true by (symmetry; apply Nat.ltb_lt; lia).
Qed.

Lemma handleReadNote_spec T w :
  handleReadNote toLowerCase (VString T) w
  = (Returns
       {| type := JS.str "text";
          text :=
            match files w !! (slugify toLowerCase T ++ JS.str ".md") with
            | Some f => Utf8.decode (bytes f)
            | None => JS.str "Note not found: "
                      ++ slugify toLowerCase T ++ JS.str ".md"
            end |},
     withNotesDir w).
Proof.
  unfold handleReadNote, bind. rewrite ensureNotesDir_spec.
  cbn [slugifyVal ret]. unfold Fs.existsSync, Fs.readFileSync.
  cbn [notesDir withNotesDir].
  destruct (files w !! _) as [f|] eqn:E.
  - rewrite bool_decide_eq_true_2 by eauto.
    cbn [negb notesDir withNotesDir]. by rewrite E.
  - rewrite bool_decide_eq_false_2 by (by intros [? ?]). done.
Qed.

Lemma handleReadNote_after (t : jsval) w :
  after (handleReadNote toLowerCase t) w = withNotesDir w.
Proof.
  destruct t as [T|]; unfold after.
  - by rewrite handleReadNote_spec.
  - unfold handleReadNote, bind. by rewrite ensureNotesDir_spec.
Qed.

Lemma mapM_noteLine w names :
  Forall (fun name => is_Some (files w !! name)) names ->
  mapM (noteLine isoDate) names (withNotesDir w)
  = (Returns (List.map (lineOf isoDate w) names), withNotesDir w).
Proof.
  induction 1 as [|name names [f Hf] _ IH]; [done|].
  cbn [mapM]. unfold bind at 1. unfold noteLine at 1, bind at 1.
  unfold Fs.statSync. cbn [notesDir withNotesDir]. rewrite Hf.
  cbn [ret]. unfold bind at 1. rewrite IH. cbn [ret List.map].
  unfold lineOf at 2. by rewrite Hf.
Qed.

Lemma listedFiles_in_store w :
  Forall (fun name => is_Some (files w !! name)) (listedFiles earlier w).
Proof.
  unfold listedFiles. apply List.Forall_forall. intros name Hin.
  apply List.filter_In in Hin as [Hin _].
  apply list_elem_of_In, list_elem_of_fmap in Hin as ([name' f] & -> & Hin).
  rewrite arrange_Permutation in Hin.
  apply elem_of_map_to_list in Hin. by exists f.
Qed.

Lemma handleListNotes_spec w :
  handleListNotes isoDate earlier w
  = (Returns
       {| type := JS.str "text";
          text :=
            match listedFiles earlier w with
            | [] => JS.str "No notes found in ~/dev-notes/"
            | _ :: _ =>
                JS.str "Available notes:" ++ LF ++ LF
                ++ JS.join LF
                     (List.map (lineOf isoDate w) (listedFiles earlier w))
            end |},
     withNotesDir w).
Proof.
  unfold handleListNotes, bind. rewrite ensureNotesDir_spec.
  unfold Fs.readdirSync. cbn [notesDir withNotesDir].
  fold (listedFiles earlier w). pose proof (listedFiles_in_store w) as Hin.
  destruct (listedFiles earlier w) as [|name names] eqn:E; [done|].
  cbn [length Nat.eqb]. by rewrite mapM_noteLine.
Qed.

(** *** Saving and reading *)

(** What [read_note] returns right after [save_note], whatever the content:
    the stored bytes decoded. *)
Lemma read_after_save_utf8 T T' C w :
  (length (slugify toLowerCase T ++ JS.str ".md") <= Fs.NAME_MAX)%nat ->
  slugify toLowerCase T' = slugify toLowerCase T ->
  result (handleReadNote toLowerCase (VString T'))
    (after (handleSaveNote toLowerCase (VString T) (VString C)) w)
  = Returns {| type := JS.str "text";
               text := Utf8.decode (Utf8.encode C) |}.
Proof.
  intros Hfits Hslug. unfold result, after.
  rewrite handleSaveNote_spec, handleReadNote_spec by done. cbn [fst snd].
  unfold files at 1. cbn [notesDir default from_option id].
  by rewrite Hslug, lookup_insert_eq.
Qed.

(** C1, amended.  For every title whose file name, the slug followed by
    ".md", is no longer than the file system allows, every store and every
    content that is a well-formed string (no surrogate outside a pair),
    [read_note] right after [save_note] returns the content exactly, whatever
    was stored under the title before: in particular the second of two saves
    is the one read. *)
Theorem read_after_save_returns_content (T C : jsstring) (w : world) :
  (length (slugify toLowerCase T ++ JS.str ".md") <= Fs.NAME_MAX)%nat ->
  Utf8.wellFormed C = true ->
  result (handleReadNote toLowerCase (VString T))
    (after (handleSaveNote toLowerCase (VString T) (VString C)) w)
  = Returns {| type := JS.str "text"; text := C |}
  /\ forall C1 : jsstring,
       result (handleReadNote toLowerCase (VString T))
         (after (handleSaveNote toLowerCase (VString T) (VString C))
            (after (handleSaveNote toLowerCase (VString T) (VString C1)) w))
       = Returns {| type := JS.str "text"; text := C |}.
Proof.
  intros Hfits Hwf. split; [|intros C1];
    by rewrite read_after_save_utf8, decode_encode.
Qed.

(** C8, amended.  Titles with the same slug address the same note, when the
    file name of that slug is no longer than the file system allows: what
    one saves, a well-formed content, the other reads; a later save under any
    title of that slug succeeds and is what every such title reads
    afterwards. *)
Theorem same_slug_same_note (T1 T2 T3 C C' : jsstring) (w : world) :
  (length (slugify toLowerCase T1 ++ JS.str ".md") <= Fs.NAME_MAX)%nat ->
  slugify toLowerCase T1 = slugify toLowerCase T2 ->
  slugify toLowerCase T1 = slugify toLowerCase T3 ->
  Utf8.wellFormed C = true ->
  Utf8.wellFormed C' = true ->
  let w1 := after (handleSaveNote toLowerCase (VString T1) (VString C)) w in
  let w2 := after (handleSaveNote toLowerCase (VString T2) (VString C')) w1 in
  result (handleReadNote toLowerCase (VString T2)) w1
  = Returns {| type := JS.str "text"; text := C |}
  /\ result (handleSaveNote toLowerCase (VString T2) (VString C')) w1
     = Returns {| type := JS.str "text";
                  text := JS.str "Note saved successfully: "
                          ++ slugify toLowerCase T1 ++ JS.str ".md" |}
  /\ result (handleReadNote toLowerCase (VString T3)) w2
     = Returns {| type := JS.str "text"; text := C' |}.
Proof.
  intros Hfits H12 H13 Hwf Hwf' w1 w2. subst w1 w2. repeat split.
  - by rewrite read_after_save_utf8, decode_encode.
  - unfold result. rewrite handleSaveNote_spec by (by rewrite <- H12).
    by rewrite H12.
  - by rewrite read_after_save_utf8, decode_encode by congruence.
Qed.

(** C4.  [read_note] returns, without throwing, the stored content as text
    when the file of the title is in the store, and otherwise a text that
    says the note was not found and names the file looked for. *)
Theorem read_note_content_or_not_found (T : jsstring) (w : world) :
  result (handleReadNote toLowerCase (VString T)) w
  = Returns
      {| type := JS.str "text";
         text :=
           match contents w !! (slugify toLowerCase T ++ JS.str ".md") with
           | Some stored => Utf8.decode stored
           | None => JS.str "Note not found: "
                     ++ slugify toLowerCase T ++ JS.str ".md"
           end |}.
Proof.
  unfold result, contents. rewrite handleReadNote_spec, lookup_fmap.
  cbn [fst]. by destruct (files w !! _).
Qed.

(** *** Listing *)

Lemma handleListNotes_after w :
  after (handleListNotes isoDate earlier) w = withNotesDir w.
Proof. unfold after. by rewrite handleListNotes_spec. Qed.

(** C10.  [list_notes] and [read_note] leave every stored content as it was;
    all they do to the store is to create the directory when it is absent. *)
Theorem list_and_read_keep_contents (w : world) (t : jsval) :
  contents (after (handleListNotes isoDate earlier) w) = contents w
  /\ contents (after (handleReadNote toLowerCase t) w) = contents w
  /\ after (handleListNotes isoDate earlier) w = withNotesDir w
  /\ after (handleReadNote toLowerCase t) w = withNotesDir w.
Proof.
  by rewrite handleListNotes_after, handleReadNote_after,
    contents_withNotesDir.
Qed.

(** C7.  With no file whose name ends in ".md" in the store (the directory
    may be empty or absent), [list_notes] returns the "No notes found" text,
    which is not the listing with no line. *)
Theorem list_notes_empty_message (w : world) :
  (forall name : jsstring,
     is_Some (files w !! name) -> JS.endsWith name (JS.str ".md") = false) ->
  result (handleListNotes isoDate earlier) w
  = Returns {| type := JS.str "text";
               text := JS.str "No notes found in ~/dev-notes/" |}
  /\ JS.str "No notes found in ~/dev-notes/"
     <> JS.str "Available notes:" ++ LF ++ LF ++ JS.join LF [].
Proof.
  intros Hnone. split; [|by vm_compute].
  unfold result. rewrite handleListNotes_spec. cbn [fst].
  pose proof (listedFiles_in_store w) as Hin.
  destruct (listedFiles earlier w) as [|name names] eqn:E; [done|].
  apply Forall_inv in Hin. apply Hnone in Hin.
  assert (In name (listedFiles earlier w)) as Hl by (rewrite E; by left).
  apply List.filter_In in Hl as [_ Hl]. congruence.
Qed.

(** *** Dispatch *)

(** C5.  A tool name that is none of the three is answered with a text
    content that names it; nothing is thrown, the world is unchanged, and a
    request that follows is handled as it would have been. *)
Theorem unknown_tool_answered_inline
    (name : jsstring) (args : option arguments) (w : world) :
  name <> JS.str "save_note" ->
  name <> JS.str "list_notes" ->
  name <> JS.str "read_note" ->
  processToolCall toLowerCase isoDate earlier name args w
  = (Returns {| type := JS.str "text";
                text := JS.str "Unknown tool: " ++ name |}, w)
  /\ callTool toLowerCase isoDate earlier name args w
     = (Returns {| content_items :=
                     [{| type := JS.str "text";
                         text := JS.str "Unknown tool: " ++ name |}] |}, w)
  /\ forall (name' : jsstring) (args' : option arguments),
       callTool toLowerCase isoDate earlier name' args'
         (after (callTool toLowerCase isoDate earlier name args) w)
       = callTool toLowerCase isoDate earlier name' args' w.
Proof.
  intros Hsave Hlist Hread.
  assert (processToolCall toLowerCase isoDate earlier name args w
          = (Returns {| type := JS.str "text";
                        text := JS.str "Unknown tool: " ++ name |}, w)) as E.
  { unfold processToolCall. by repeat case_decide. }
  assert (callTool toLowerCase isoDate earlier name args w
          = (Returns {| content_items :=
                          [{| type := JS.str "text";
                              text := JS.str "Unknown tool: " ++ name |}] |},
             w)) as E'.
  { unfold callTool, bind. by rewrite E. }
  repeat split; [exact E | exact E' |].
  intros name' args'. unfold after. by rewrite E'.
Qed.

End Handlers.

Lemma read_after_save_returns_content_witness :
  result (handleReadNote JS.asciiLowerCase (VString (JS.str "Project Ideas")))
    (after (handleSaveNote JS.asciiLowerCase (VString (JS.str "Project Ideas"))
              (VString (JS.str "# Ideas" ++ LF ++ JS.str "- thing one")))
       freshWorld)
  = Returns {| type := JS.str "text";
               text := JS.str "# Ideas" ++ LF ++ JS.str "- thing one" |}
  /\ forall C1 : jsstring,
       result
         (handleReadNote JS.asciiLowerCase (VString (JS.str "Project Ideas")))
         (after
            (handleSaveNote JS.asciiLowerCase (VString (JS.str "Project Ideas"))
               (VString (JS.str "# Ideas" ++ LF ++ JS.str "- thing one")))
            (after
               (handleSaveNote JS.asciiLowerCase
                  (VString (JS.str "Project Ideas")) (VString C1))
               freshWorld))
       = Returns {| type := JS.str "text";
                    text := JS.str "# Ideas" ++ LF ++ JS.str "- thing one" |}.
Proof.
  apply (read_after_save_returns_content JS.asciiLowerCase
           (JS.str "Project Ideas")
           (JS.str "# Ideas" ++ LF ++ JS.str "- thing one") freshWorld).
  - by apply Nat.leb_le.
  - reflexivity.
Defined.

(** C1 as stated fails in two ways.  A content that is one unpaired
    surrogate is stored as the bytes of U+FFFD, and U+FFFD is what is read
    back.  And under a title of 300 letters the save is refused with
    [ENAMETOOLONG], so that the read finds no note. *)
Lemma read_after_save_unpaired_surrogate :
  result (handleReadNote JS.asciiLowerCase (VString (JS.str "t")))
    (after (handleSaveNote JS.asciiLowerCase (VString (JS.str "t"))
              (VString [0xD800]))
       freshWorld)
  = Returns {| type := JS.str "text"; text := [0xFFFD] |}
  /\ result (handleReadNote JS.asciiLowerCase (VString (JS.str "t")))
       (after (handleSaveNote JS.asciiLowerCase (VString (JS.str "t"))
                 (VString [0xD800]))
          freshWorld)
     <> Returns {| type := JS.str "text"; text := [0xD800] |}
  /\ result (handleSaveNote JS.asciiLowerCase (VString longTitle)
               (VString (JS.str "x")))
       freshWorld
     = Throws ENAMETOOLONG
  /\ result (handleReadNote JS.asciiLowerCase (VString longTitle))
       (after (handleSaveNote JS.asciiLowerCase (VString longTitle)
                 (VString (JS.str "x")))
          freshWorld)
     = Returns {| type := JS.str "text";
                  text := JS.str "Note not found: " ++ longTitle
                          ++ JS.str ".md" |}
  /\ result (handleReadNote JS.asciiLowerCase (VString longTitle))
       (after (handleSaveNote JS.asciiLowerCase (VString longTitle)
                 (VString (JS.str "x")))
          freshWorld)
     <> Returns {| type := JS.str "text"; text := JS.str "x" |}.
Proof.
  split; [by vm_compute|]. split; [vm_compute; congruence|].
  split; [by vm_compute|]. split; [by vm_compute|]. vm_compute; congruence.
Qed.

Lemma same_slug_same_note_witness :
  let w1 :=
    after (handleSaveNote JS.asciiLowerCase (VString (JS.str "Project Ideas"))
             (VString (JS.str "first"))) freshWorld in
  let w2 :=
    after (handleSaveNote JS.asciiLowerCase
             (VString (JS.str "  project   IDEAS!"))
             (VString (JS.str "second"))) w1 in
  result (handleReadNote JS.asciiLowerCase
            (VString (JS.str "  project   IDEAS!"))) w1
  = Returns {| type := JS.str "text"; text := JS.str "first" |}
  /\ result (handleSaveNote JS.asciiLowerCase
               (VString (JS.str "  project   IDEAS!"))
               (VString (JS.str "second"))) w1
     = Returns {| type := JS.str "text";
                  text := JS.str "Note saved successfully: "
                          ++ slugify JS.asciiLowerCase (JS.str "Project Ideas")
                          ++ JS.str ".md" |}
  /\ result (handleReadNote JS.asciiLowerCase
               (VString (JS.str "project-ideas"))) w2
     = Returns {| type := JS.str "text"; text := JS.str "second" |}.
Proof.
  apply (same_slug_same_note JS.asciiLowerCase
           (JS.str "Project Ideas") (JS.str "  project   IDEAS!")
           (JS.str "project-ideas") (JS.str "first") (JS.str "second")
           freshWorld); [by apply Nat.leb_le | reflexivity ..].
Defined.

(** C8 as stated fails for the same reasons as C1.  Two titles have one
    slug, and the unpaired surrogate saved under the first is read as U+FFFD
    under the second.  And two titles of 300 letters have one slug, the save
    under the first is refused with [ENAMETOOLONG], and the read under the
    second finds no note. *)
Lemma same_slug_unpaired_surrogate :
  slugify JS.asciiLowerCase (JS.str "Project Ideas")
  = slugify JS.asciiLowerCase (JS.str "project   ideas")
  /\ result (handleReadNote JS.asciiLowerCase
               (VString (JS.str "project   ideas")))
       (after (handleSaveNote JS.asciiLowerCase
                 (VString (JS.str "Project Ideas")) (VString [0xDC00]))
          freshWorld)
     <> Returns {| type := JS.str "text"; text := [0xDC00] |}
  /\ slugify JS.asciiLowerCase longTitle
     = slugify JS.asciiLowerCase (List.map (fun c => c - 32) longTitle)
  /\ result (handleSaveNote JS.asciiLowerCase (VString longTitle)
               (VString (JS.str "x")))
       freshWorld
     = Throws ENAMETOOLONG
  /\ result (handleReadNote JS.asciiLowerCase
               (VString (List.map (fun c => c - 32) longTitle)))
       (after (handleSaveNote JS.asciiLowerCase (VString longTitle)
                 (VString (JS.str "x")))
          freshWorld)
     <> Returns {| type := JS.str "text"; text := JS.str "x" |}.
Proof.
  split; [by vm_compute|]. split; [vm_compute; congruence|].
  split; [by vm_compute|]. split; [by vm_compute|]. vm_compute; congruence.
Qed.

Lemma list_notes_empty_message_witness :
  result (handleListNotes (fun _ => JS.str "1970-01-01") byName) freshWorld
  = Returns {| type := JS.str "text";
               text := JS.str "No notes found in ~/dev-notes/" |}
  /\ JS.str "No notes found in ~/dev-notes/"
     <> JS.str "Available notes:" ++ LF ++ LF ++ JS.join LF [].
Proof.
  apply (list_notes_empty_message (fun _ => JS.str "1970-01-01") byName freshWorld).
  intros name [f Hf]. vm_compute in Hf. discriminate Hf.
Defined.

Lemma unknown_tool_answered_inline_witness :
  processToolCall JS.asciiLowerCase (fun _ => JS.str "1970-01-01") byName
    (JS.str "delete_note") None freshWorld
  = (Returns {| type := JS.str "text";
                text := JS.str "Unknown tool: " ++ JS.str "delete_note" |},
     freshWorld)
  /\ callTool JS.asciiLowerCase (fun _ => JS.str "1970-01-01") byName
       (JS.str "delete_note") None freshWorld
     = (Returns {| content_items :=
                     [{| type := JS.str "text";
                         text := JS.str "Unknown tool: "
                                 ++ JS.str "delete_note" |}] |},
        freshWorld)
  /\ forall (name' : jsstring) (args' : option arguments),
       callTool JS.asciiLowerCase (fun _ => JS.str "1970-01-01") byName name' args'
         (after (callTool JS.asciiLowerCase (fun _ => JS.str "1970-01-01") byName
                   (JS.str "delete_note") None) freshWorld)
       = callTool JS.asciiLowerCase (fun _ => JS.str "1970-01-01") byName
           name' args' freshWorld.
Proof.
  apply (unknown_tool_answered_inline JS.asciiLowerCase
           (fun _ => JS.str "1970-01-01") byName (JS.str "delete_note") None
           freshWorld); vm_compute; discriminate.
Defined.

(** *** The listing and the notes that were saved *)

Section Listing.

Variable toLowerCase : jsstring -> jsstring.
Variable isoDate : Z -> jsstring.
Variable earlier : jsstring * file -> jsstring * file -> bool.

Implicit Types (w : world) (name y : jsstring)
  (notes : list (jsstring * jsstring)).

Lemma startsWith_app (p r : jsstring) : JS.startsWith (p ++ r) p = true.
Proof. induction p as [|c p IH]; [done|]. simpl. by rewrite Z.eqb_refl, IH. Qed.

Lemma endsWith_app (s suffix : jsstring) :
  JS.endsWith (s ++ suffix) suffix = true.
Proof. unfold JS.endsWith. rewrite rev_app_distr. apply startsWith_app. Qed.

(** The files listed are exactly the files of the store whose name ends in
    ".md", each once. *)
Lemma listedFiles_spec w name :
  name ∈ listedFiles earlier w
  <-> is_Some (files w !! name) /\ JS.endsWith name (JS.str ".md") = true.
Proof.
  unfold listedFiles. rewrite list_elem_of_In, List.filter_In.
  rewrite <- list_elem_of_In, list_elem_of_fmap. split.
  - intros [([name' f] & -> & Hin) Hends]. split; [|done].
    rewrite arrange_Permutation in Hin.
    apply elem_of_map_to_list in Hin. by exists f.
  - intros [[f Hf] Hends]. split; [|done].
    exists (name, f). split; [done|]. rewrite arrange_Permutation.
    by apply elem_of_map_to_list.
Qed.


Lemma replaceClass_single (cls : Z -> bool) (x : Z) (s : jsstring) :
  JS.replaceClass cls [x] s = List.map (fun c => if cls c then x else c) s.
Proof.
  induction s as [|c r IH]; simpl; [done|]. rewrite IH. by destruct (cls c).
Qed.

Lemma replaceFirst_extension y :
  Forall (fun c => c <> 46) y ->
  JS.replaceFirst (JS.str ".md") (JS.str "") (y ++ JS.str ".md") = y.
Proof.
  induction 1 as [|c r Hc _ IH]; [done|].
  cbn [JS.replaceFirst app]. rewrite IH.
  change (JS.str ".md") with [46; 109; 100]. cbn [JS.startsWith].
  by replace (c =? 46) with false by (symmetry; by apply Z.eqb_neq).
Qed.

Lemma removeExtension_app y :
  Reference.removeExtension (y ++ JS.str ".md") = y.
Proof.
  unfold Reference.removeExtension. rewrite endsWith_app.
  rewrite length_app, Nat.add_sub. by rewrite take_app_length.
Qed.

(** For a file that [save_note] wrote, the title shown is the slug with
    spaces for hyphens: the name without its extension. *)
Lemma displayTitle_of_slug y :
  Forall slugUnit y ->
  displayTitle (y ++ JS.str ".md") = Reference.displayTitle (y ++ JS.str ".md")
  /\ displayTitle (y ++ JS.str ".md")
     = List.map (fun c => if JS.isHyphen c then JS.SPACE else c) y.
Proof.
  intros Hy. unfold displayTitle, Reference.displayTitle.
  rewrite removeExtension_app, replaceFirst_extension.
  - change (JS.str " ") with [JS.SPACE]. by rewrite replaceClass_single.
  - eapply Forall_impl; [exact Hy|]. intros c [Hc _] ->. by vm_compute in Hc.
Qed.

Lemma files_save_cases T C w :
  files (after (handleSaveNote toLowerCase (VString T) (VString C)) w)
  = if (Fs.NAME_MAX <? length (slugify toLowerCase T ++ JS.str ".md"))%nat
    then files w
    else <[slugify toLowerCase T ++ JS.str ".md" :=
             {| bytes := Utf8.encode C; mtime := clock w |}]> (files w).
Proof.
  unfold after. rewrite handleSaveNote_cases. by destruct (_ <? _)%nat.
Qed.

Lemma files_save T C w :
  (length (slugify toLowerCase T ++ JS.str ".md") <= Fs.NAME_MAX)%nat ->
  files (after (handleSaveNote toLowerCase (VString T) (VString C)) w)
  = <[slugify toLowerCase T ++ JS.str ".md" :=
        {| bytes := Utf8.encode C; mtime := clock w |}]> (files w).
Proof. intros Hfits. unfold after. by rewrite handleSaveNote_spec. Qed.

Lemma dom_files_saveAll notes w :
  Forall (fun note =>
            (length (slugify toLowerCase note.1 ++ JS.str ".md")
             <= Fs.NAME_MAX)%nat) notes ->
  dom (files (saveAll toLowerCase notes w))
  = list_to_set
      (List.map (fun note => slugify toLowerCase note.1 ++ JS.str ".md") notes)
    ∪ dom (files w).
Proof.
  intros Hfit. revert w.
  induction Hfit as [|[T C] notes Hfits _ IH]; intros w.
  - cbn [saveAll foldl List.map list_to_set]. by rewrite (left_id_L ∅ (∪)).
  - change (saveAll toLowerCase ((T, C) :: notes) w)
      with (saveAll toLowerCase notes
              (after (handleSaveNote toLowerCase (VString T) (VString C)) w)).
    rewrite IH, files_save, dom_insert_L by done.
    cbn [List.map list_to_set fst].
    by rewrite (assoc_L (∪)), (comm_L (∪) (list_to_set _) {[_]}).
Qed.

Lemma filter_all (p : jsstring -> bool) (l : list jsstring) :
  Forall (fun x => p x = true) l -> List.filter p l = l.
Proof. induction 1 as [|x l Hx _ IH]; simpl; [done|]. by rewrite Hx, IH. Qed.

Hypothesis toLowerCase_no_upper :
  forall s, Forall (fun c => JS.isUpper c = false) (toLowerCase s).

(** X17.  Listing completeness: after [N] notes with pairwise distinct slugs,
    whose file names are no longer than the file system allows, are saved
    into an empty store, [list_notes] shows [N] lines, one for each file, in
    the order of the file system; each file name is the slug of a saved title
    followed by ".md", and its title is that slug with spaces for hyphens. *)
Theorem listing_after_saves notes w :
  Forall (fun note =>
            (length (slugify toLowerCase note.1 ++ JS.str ".md")
             <= Fs.NAME_MAX)%nat) notes ->
  files w = ∅ ->
  NoDup (List.map (fun note => slugify toLowerCase note.1) notes) ->
  length (listedFiles earlier (saveAll toLowerCase notes w)) = length notes
  /\ Forall (fun name =>
               JS.endsWith name (JS.str ".md") = true
               /\ exists note,
                    note ∈ notes
                    /\ name = slugify toLowerCase note.1 ++ JS.str ".md"
                    /\ displayTitle name = Reference.displayTitle name)
       (listedFiles earlier (saveAll toLowerCase notes w))
  /\ result (handleListNotes isoDate earlier) (saveAll toLowerCase notes w)
     = Returns
         {| type := JS.str "text";
            text :=
              match notes with
              | [] => JS.str "No notes found in ~/dev-notes/"
              | _ :: _ =>
                  JS.str "Available notes:" ++ LF ++ LF
                  ++ JS.join LF
                       (List.map (lineOf isoDate (saveAll toLowerCase notes w))
                          (listedFiles earlier (saveAll toLowerCase notes w)))
              end |}.
Proof using toLowerCase_no_upper.
  intros Hfit Hempty Hdistinct.
  pose proof (dom_files_saveAll notes w Hfit) as Hdom.
  rewrite Hempty, dom_empty_L, (right_id_L ∅ (∪)) in Hdom.
  set (w' := saveAll toLowerCase notes w) in *.
  assert (forall name, is_Some (files w' !! name) ->
            exists note, note ∈ notes
                         /\ name = slugify toLowerCase note.1 ++ JS.str ".md")
    as Hnames.
  { intros name Hname. apply elem_of_dom in Hname. rewrite Hdom in Hname.
    apply elem_of_list_to_set, list_elem_of_fmap in Hname
      as (note & -> & Hnote). eauto. }
  assert (length (listedFiles earlier w') = length notes) as Hlen.
  { unfold listedFiles. rewrite filter_all.
    - rewrite length_fmap, (Permutation_length (arrange_Permutation _ _)).
      rewrite length_map_to_list, <- size_dom, Hdom.
      rewrite size_list_to_set, length_map; [done|].
      rewrite <- (List.map_map (fun note => slugify toLowerCase note.1)
                    (fun y => y ++ JS.str ".md")).
      apply (NoDup_fmap_2 (fun y => y ++ JS.str ".md")), Hdistinct.
    - apply List.Forall_forall. intros name Hin.
      apply list_elem_of_In, list_elem_of_fmap in Hin as ([name' f] & -> & Hin).
      rewrite arrange_Permutation in Hin.
      apply elem_of_map_to_list in Hin.
      destruct (Hnames name' (ex_intro _ f Hin)) as (note & _ & ->).
      apply endsWith_app. }
  split; [exact Hlen|]. split.
  - apply List.Forall_forall. intros name Hin.
    apply list_elem_of_In, listedFiles_spec in Hin as [Hin Hends].
    split; [exact Hends|].
    destruct (Hnames name Hin) as (note & Hnote & ->).
    exists note. repeat split; [done|].
    apply displayTitle_of_slug, slugify_shape, toLowerCase_no_upper.
  - unfold result. rewrite handleListNotes_spec. cbn [fst].
    destruct (listedFiles earlier w') as [|name names], notes as [|note notes'];
      done.
Qed.

End Listing.

Lemma listing_after_saves_witness :
  length
    (listedFiles byName
       (saveAll JS.asciiLowerCase
          [(JS.str "Project Ideas", JS.str "# Ideas");
           (JS.str "To do", JS.str "- write")] freshWorld))
  = 2%nat.
Proof.
  apply (listing_after_saves JS.asciiLowerCase (fun _ => JS.str "1970-01-01")
           byName asciiLowerCase_no_upper
           [(JS.str "Project Ideas", JS.str "# Ideas");
            (JS.str "To do", JS.str "- write")] freshWorld).
  - repeat constructor; by apply Nat.leb_le.
  - reflexivity.
  - by apply (bool_decide_unpack _); vm_compute.
Defined.

(** C6, where the code departs from it.  The store holds a file named
    "my-notes.md.bak.md".  It is listed, as its name ends in ".md"; the title
    shown for it is "my notes.bak.md", while the name without the extension,
    with spaces for hyphens, is "my notes.md.bak": [replace(".md", "")]
    removes the first ".md" of the name, not the one at its end. *)
Theorem list_notes_title_of_inner_md (isoDate : Z -> jsstring)
    (earlier : jsstring * file -> jsstring * file -> bool) :
  result (handleListNotes isoDate earlier) backupWorld
  = Returns
      {| type := JS.str "text";
         text := JS.str "Available notes:" ++ LF ++ LF
                 ++ formatLine (JS.str "my notes.bak.md")
                      (JS.str "my-notes.md.bak.md") (isoDate 0) |}
  /\ Reference.displayTitle (JS.str "my-notes.md.bak.md")
     = JS.str "my notes.md.bak"
  /\ displayTitle (JS.str "my-notes.md.bak.md")
     <> Reference.displayTitle (JS.str "my-notes.md.bak.md").
Proof.
  split; [|split]; [| by vm_compute | by vm_compute].
  unfold result. rewrite handleListNotes_spec. cbn [fst].
  assert (listedFiles earlier backupWorld = [JS.str "my-notes.md.bak.md"]) as ->
    by by vm_compute.
  by vm_compute.
Qed.

(** The scenario of the specification, run with the ASCII lower-casing: the
    note "Project Ideas" is saved to "project-ideas.md", listed with the
    title "project ideas" and read back as it was saved. *)
Example project_ideas_scenario :
  let body := JS.str "# Ideas" ++ LF ++ JS.str "- thing one" in
  let save :=
    handleSaveNote JS.asciiLowerCase
      (VString (JS.str "Project Ideas")) (VString body) in
  let w1 := after save freshWorld in
  result save freshWorld
  = Returns {| type := JS.str "text";
               text := JS.str "Note saved successfully: project-ideas.md" |}
  /\ contents w1 !! JS.str "project-ideas.md" = Some (Utf8.encode body)
  /\ listedFiles byName w1 = [JS.str "project-ideas.md"]
  /\ displayTitle (JS.str "project-ideas.md") = JS.str "project ideas"
  /\ result (handleReadNote JS.asciiLowerCase
               (VString (JS.str "Project Ideas"))) w1
     = Returns {| type := JS.str "text"; text := body |}.
Proof. by vm_compute. Qed.

(** * Further properties of the handlers *)

Section Store.

Variable toLowerCase : jsstring -> jsstring.
Variable isoDate : Z -> jsstring.
Variable earlier : jsstring * file -> jsstring * file -> bool.

Implicit Types (w : world) (T C name : jsstring).

(** X1.  [ensureNotesDir] never throws; afterwards the directory exists and
    holds the files it held; a directory that exists is left as it is, and a
    second call changes nothing. *)
Theorem ensureNotesDir_idempotent w :
  result ensureNotesDir w = Returns tt
  /\ is_Some (notesDir (after ensureNotesDir w))
  /\ files (after ensureNotesDir w) = files w
  /\ (is_Some (notesDir w) -> after ensureNotesDir w = w)
  /\ after ensureNotesDir (after ensureNotesDir w) = after ensureNotesDir w.
Proof.
  unfold result, after. rewrite !ensureNotesDir_spec. cbn [fst snd].
  rewrite ?ensureNotesDir_spec. cbn [snd].
  repeat split; [by eexists|].
  intros [d Hd]. destruct w as [dir t]. simpl in Hd. by subst dir.
Qed.

(** X2.  With a string title whose file name, the slug followed by ".md",
    is no longer than the file system allows, and a string content,
    [save_note] does not throw: it reports the file name; that file then
    holds the UTF-8 bytes of the content, stamped with the time of the clock,
    and every other file of the store is as it was. *)
Theorem save_note_writes_one_file T C w :
  (length (slugify toLowerCase T ++ JS.str ".md") <= Fs.NAME_MAX)%nat ->
  let filename := slugify toLowerCase T ++ JS.str ".md" in
  let save := handleSaveNote toLowerCase (VString T) (VString C) in
  result save w
  = Returns {| type := JS.str "text";
               text := JS.str "Note saved successfully: " ++ filename |}
  /\ files (after save w) !! filename
     = Some {| bytes := Utf8.encode C; mtime := clock w |}
  /\ (forall name, name <> filename ->
        files (after save w) !! name = files w !! name)
  /\ clock (after save w) = clock w.
Proof.
  intros Hfits filename save. subst save. unfold result.
  rewrite files_save by done. unfold after. rewrite handleSaveNote_spec by done.
  cbn [fst snd clock]. repeat split.
  - apply lookup_insert_eq.
  - intros name Hname. by apply lookup_insert_ne.
Qed.

(** X3.  Last writer wins on the contents of the store: after two saves
    under titles of one slug the contents are those that the second save
    alone leaves. *)
Theorem save_note_last_writer_wins T1 C1 T2 C2 w :
  slugify toLowerCase T1 = slugify toLowerCase T2 ->
  contents (after (handleSaveNote toLowerCase (VString T2) (VString C2))
              (after (handleSaveNote toLowerCase (VString T1) (VString C1)) w))
  = contents (after (handleSaveNote toLowerCase (VString T2) (VString C2)) w).
Proof.
  intros Hslug. unfold contents. rewrite !files_save_cases, Hslug.
  destruct (_ <? _)%nat; [done|].
  rewrite !fmap_insert. cbn [bytes]. by rewrite insert_insert_eq.
Qed.

(** X4.  Saves under titles of different slugs commute: the contents of the
    store are the same in either order. *)
Theorem save_note_commutes T1 C1 T2 C2 w :
  slugify toLowerCase T1 <> slugify toLowerCase T2 ->
  contents (after (handleSaveNote toLowerCase (VString T2) (VString C2))
              (after (handleSaveNote toLowerCase (VString T1) (VString C1)) w))
  = contents (after (handleSaveNote toLowerCase (VString T1) (VString C1))
                (after (handleSaveNote toLowerCase (VString T2) (VString C2))
                   w)).
Proof.
  intros Hslug. unfold contents. rewrite !files_save_cases.
  destruct (_ <? length (slugify toLowerCase T1 ++ _))%nat,
    (_ <? length (slugify toLowerCase T2 ++ _))%nat;
    rewrite ?fmap_insert; try done.
  cbn [bytes]. apply insert_insert_ne.
  intros Heq. by apply app_inv_tail in Heq.
Qed.

(** X5.  A save under a title of another slug does not change what
    [read_note] returns. *)
Theorem read_note_unaffected_by_other_save T T' C w :
  slugify toLowerCase T' <> slugify toLowerCase T ->
  result (handleReadNote toLowerCase (VString T'))
    (after (handleSaveNote toLowerCase (VString T) (VString C)) w)
  = result (handleReadNote toLowerCase (VString T')) w.
Proof.
  intros Hslug. unfold result. rewrite !handleReadNote_spec, files_save_cases.
  cbn [fst]. destruct (_ <? _)%nat; [done|].
  rewrite lookup_insert_ne; [done|].
  intros Heq. by apply app_inv_tail in Heq.
Qed.



(** X8.  For a file name whose part before the final ".md" holds no dot, the
    title shown is that part with spaces for hyphens: the name without its
    extension. *)
Theorem displayTitle_without_inner_dot (stem : jsstring) :
  Forall (fun c => c <> 46) stem ->
  displayTitle (stem ++ JS.str ".md")
  = List.map (fun c => if JS.isHyphen c then JS.SPACE else c) stem
  /\ displayTitle (stem ++ JS.str ".md")
     = Reference.displayTitle (stem ++ JS.str ".md").
Proof.
  intros Hstem. unfold displayTitle, Reference.displayTitle.
  rewrite removeExtension_app, replaceFirst_extension by done.
  change (JS.str " ") with [JS.SPACE]. by rewrite replaceClass_single.
Qed.

End Store.

(** ** What is read back in general *)

Section ReadBack.

Variable toLowerCase : jsstring -> jsstring.

Implicit Types (s : jsstring).

Lemma decode_encode_toWellFormed_bounded (n : nat) s :
  (length s <= n)%nat ->
  Forall (fun c => 0 <= c < 0x10000) s ->
  Utf8.decode (Utf8.encode s) = toWellFormed s
  /\ Utf8.wellFormed (toWellFormed s) = true.
Proof.
  revert s. induction n as [|n IH]; intros [|c r] Hlen Hunits;
    try done; simpl in Hlen; [lia|].
  apply Forall_cons in Hunits as [Hc Hunits].
  cbn [Utf8.encode toWellFormed].
  destruct (Utf8.isHighSurrogate c) eqn:Ehi.
  - destruct r as [|d r'].
    + rewrite <- (app_nil_r (Utf8.encodeCodePoint _)), decode_replacement.
      by vm_compute.
    + destruct (Utf8.isLowSurrogate d) eqn:Elo.
      * destruct (codeUnits_pair c d Ehi Elo) as [Hcp Hpair].
        rewrite decode_encodeCodePoint, Hpair by lia.
        apply Forall_cons in Hunits as [_ Hunits]. simpl in Hlen.
        destruct (IH r') as [IH1 IH2]; [lia | done |].
        rewrite IH1. split; [done|].
        cbn [Utf8.wellFormed]. by rewrite Ehi, Elo, IH2.
      * rewrite decode_replacement.
        destruct (IH (d :: r')) as [IH1 IH2]; [simpl in *; lia | done |].
        rewrite IH1. split; [done|].
        change (Utf8.wellFormed (Utf8.REPLACEMENT :: toWellFormed (d :: r')))
          with (Utf8.wellFormed (toWellFormed (d :: r'))).
        exact IH2.
  - destruct (IH r) as [IH1 IH2]; [lia | done |].
    destruct (Utf8.isLowSurrogate c) eqn:Elo.
    + rewrite decode_replacement, IH1. split; [done|].
      change (Utf8.wellFormed (Utf8.REPLACEMENT :: toWellFormed r))
        with (Utf8.wellFormed (toWellFormed r)).
      exact IH2.
    + pose proof Ehi as Ehi'. pose proof Elo as Elo'.
      unfold Utf8.isHighSurrogate, Utf8.isLowSurrogate in Ehi', Elo'.
      rewrite andb_false_iff, !Z.leb_gt in Ehi', Elo'.
      rewrite decode_encodeCodePoint by lia.
      unfold Utf8.codeUnits.
      replace (c <? 0x10000) with true by (symmetry; apply Z.ltb_lt; lia).
      rewrite IH1. split; [done|].
      cbn [Utf8.wellFormed]. rewrite Ehi, Elo, IH2.
      replace (0 <=? c) with true by (symmetry; apply Z.leb_le; lia).
      by replace (c <? 0x10000) with true by (symmetry; apply Z.ltb_lt; lia).
Qed.

(** X9.  For every title whose file name is no longer than the file system
    allows and every content, a string of 16-bit code units, [read_note]
    right after [save_note] returns the content with U+FFFD for each
    surrogate that is not half of a pair.  What is returned is a well-formed
    string, and it is the content itself exactly when the content is well
    formed. *)
Theorem read_after_save_replaces_unpaired_surrogates (T C : jsstring) (w : world) :
  (length (slugify toLowerCase T ++ JS.str ".md") <= Fs.NAME_MAX)%nat ->
  Forall (fun c => 0 <= c < 0x10000) C ->
  result (handleReadNote toLowerCase (VString T))
    (after (handleSaveNote toLowerCase (VString T) (VString C)) w)
  = Returns {| type := JS.str "text"; text := toWellFormed C |}
  /\ Utf8.wellFormed (toWellFormed C) = true
  /\ (toWellFormed C = C <-> Utf8.wellFormed C = true).
Proof.
  intros Hfits Hunits.
  destruct (decode_encode_toWellFormed_bounded (length C) C) as [Hrt Hwf];
    [done | done |].
  rewrite read_after_save_utf8 by done. rewrite Hrt.
  split; [done|]. split; [exact Hwf|].
  rewrite <- Hrt. by apply decode_encode_iff.
Qed.

End ReadBack.

(** ** Dispatch, arguments and the registry *)

Section Dispatch.

Variable toLowerCase : jsstring -> jsstring.
Variable isoDate : Z -> jsstring.
Variable earlier : jsstring * file -> jsstring * file -> bool.

Implicit Types (w : world) (args : option arguments) (name : jsstring).

Lemma processToolCall_save_note args :
  processToolCall toLowerCase isoDate earlier (JS.str "save_note") args
  = (t <- getArg title args ;; c <- getArg content args ;;
     handleSaveNote toLowerCase t c).
Proof. unfold processToolCall. by case_decide. Qed.



Lemma handleSaveNote_throws (t c : jsval) w :
  (forall T C, ~ (t = VString T /\ c = VString C)) ->
  handleSaveNote toLowerCase t c w = (Throws TypeError, withNotesDir w).
Proof.
  intros Hbad. unfold handleSaveNote, bind. rewrite ensureNotesDir_spec.
  destruct t as [T|]; [|done]. destruct c as [C|]; [|done].
  by destruct (Hbad T C).
Qed.


(** What [save_note] does for each shape of the argument bundle. *)
Lemma save_note_cases args w :
  processToolCall toLowerCase isoDate earlier (JS.str "save_note") args w
  = match args with
    | None => (Throws TypeError, w)
    | Some {| title := VString T; content := VString C |} =>
        handleSaveNote toLowerCase (VString T) (VString C) w
    | Some _ => (Throws TypeError, withNotesDir w)
    end.
Proof.
  rewrite processToolCall_save_note.
  destruct args as [[t c]|]; [|done].
  unfold bind. cbn [getArg ret title content].
  destruct t as [T|], c as [C|]; try done;
    by apply handleSaveNote_throws; intros ? ? [? ?].
Qed.


(** X10.  A [save_note] that fails has written nothing: the contents of the
    store are as before.  With the arguments missing, or a title or a content
    that is not a string, the error is a [TypeError]; with a string title and
    a string content it is [ENAMETOOLONG], and the file name is longer than
    the file system allows. *)
Theorem save_note_failure_writes_nothing args w (e : error) :
  result (processToolCall toLowerCase isoDate earlier (JS.str "save_note") args) w
  = Throws e ->
  contents (after (processToolCall toLowerCase isoDate earlier
                     (JS.str "save_note") args) w)
  = contents w
  /\ match args with
     | Some {| title := VString T; content := VString C |} =>
         e = ENAMETOOLONG
         /\ (Fs.NAME_MAX < length (slugify toLowerCase T ++ JS.str ".md"))%nat
     | _ => e = TypeError
     end.
Proof.
  unfold result, after. rewrite save_note_cases.
  destruct args as [[[T|] [C|]]|]; cbn [fst snd];
    try (intros [= <-]; by rewrite ?contents_withNotesDir).
  rewrite handleSaveNote_cases.
  destruct (_ <? _)%nat eqn:E; cbn [fst snd]; [|done].
  intros [= <-]. rewrite contents_withNotesDir.
  by apply Nat.ltb_lt in E.
Qed.


(** X12.  The names that the dispatcher knows are the names of the registry:
    a name that is not registered gets the "Unknown tool" text and changes
    nothing. *)
Theorem unregistered_tool_is_unknown name args w :
  name ∉ toolName <$> tools ->
  processToolCall toLowerCase isoDate earlier name args w
  = (Returns {| type := JS.str "text";
                text := JS.str "Unknown tool: " ++ name |}, w).
Proof.
  intros Hname. unfold processToolCall.
  repeat case_decide; try done; subst name; exfalso; apply Hname;
    by vm_compute; repeat (constructor || (right; constructor)).
Qed.


End Dispatch.

(** ** More about the slug *)

Section SlugEdges.

Variable toLowerCase : jsstring -> jsstring.

Implicit Types (s r y : jsstring) (c : Z) (cls p : Z -> bool) (b : bool).

Lemma replaceRuns_nil cls (h : Z) s :
  JS.replaceRuns cls [h] false s = [] <-> s = [].
Proof.
  split; [|by intros ->]. destruct s as [|c r]; [done|]. simpl.
  by destruct (cls c).
Qed.

Lemma replaceClass_delete_nil cls s :
  JS.replaceClass cls [] s = [] <-> Forall (fun c => cls c = true) s.
Proof.
  induction s as [|c r IH]; simpl; [by split; [constructor|]|].
  destruct (cls c) eqn:E; simpl.
  - rewrite IH. split; [by constructor | by intros [_ ?]%Forall_cons].
  - split; [done | intros [? _]%Forall_cons; congruence].
Qed.

(** X14.  The slug is empty, and the file name is then ".md", exactly when
    the lower-cased and trimmed title holds no word character, no whitespace
    and no hyphen. *)
Theorem slugify_empty_iff (text : jsstring) :
  slugify toLowerCase text = []
  <-> Forall (fun c => isKept c = false) (JS.trim (toLowerCase text)).
Proof.
  unfold slugify, JS.replacePlus.
  change (JS.str "-") with [JS.HYPHEN]. change (JS.str "") with (@nil Z).
  rewrite !replaceRuns_nil, replaceClass_delete_nil.
  split; intros H; (eapply Forall_impl; [exact H|]); intros c Hc;
    unfold isKept in *; by apply negb_true_iff.
Qed.

Lemma length_dropWhile p s : (length (JS.dropWhile p s) <= length s)%nat.
Proof.
  induction s as [|c r IH]; simpl; [done|]. destruct (p c); simpl; lia.
Qed.

Lemma length_trim s : (length (JS.trim s) <= length s)%nat.
Proof.
  unfold JS.trim, JS.trimEnd, JS.trimStart. rewrite length_rev.
  etrans; [apply length_dropWhile|]. rewrite length_rev.
  apply length_dropWhile.
Qed.

Lemma length_replaceClass_delete cls s :
  (length (JS.replaceClass cls [] s) <= length s)%nat.
Proof.
  induction s as [|c r IH]; simpl; [done|]. destruct (cls c); simpl; lia.
Qed.

Lemma length_replaceRuns cls (h : Z) b s :
  (length (JS.replaceRuns cls [h] b s) <= length s)%nat.
Proof.
  revert b. induction s as [|c r IH]; intros b; simpl; [done|].
  destruct (cls c); [destruct b|]; simpl; [specialize (IH true) | specialize (IH true) | specialize (IH false)]; lia.
Qed.

(** X15.  The slug is never longer than the lower-cased title. *)
Theorem slugify_length (text : jsstring) :
  (length (slugify toLowerCase text) <= length (toLowerCase text))%nat.
Proof.
  unfold slugify, JS.replacePlus.
  change (JS.str "-") with [JS.HYPHEN]. change (JS.str "") with (@nil Z).
  etrans; [apply length_replaceRuns|].
  etrans; [apply length_replaceRuns|].
  etrans; [apply length_replaceClass_delete|]. apply length_trim.
Qed.

Lemma trim_edges s :
  JS.startsClass JS.isWhiteSpace s = false ->
  JS.startsClass JS.isWhiteSpace (rev s) = false ->
  JS.trim s = s.
Proof.
  intros Hfirst Hlast. unfold JS.trim, JS.trimEnd, JS.trimStart.
  assert (forall l, JS.startsClass JS.isWhiteSpace l = false ->
                    JS.dropWhile JS.isWhiteSpace l = l) as Hdrop.
  { intros [|c l] H; [done|]. by apply dropWhile_head_false. }
  rewrite (Hdrop s Hfirst), (Hdrop (rev s) Hlast). apply rev_involutive.
Qed.

Lemma startsClass_spaced y :
  Forall slugUnit y ->
  JS.startsClass JS.isHyphen y = false ->
  JS.startsClass JS.isWhiteSpace (List.map spaced y) = false.
Proof.
  intros Hy Hstart. destruct Hy as [|c r Hc _]; [done|]. simpl in *.
  unfold spaced. rewrite Hstart. by destruct Hc as (_ & ? & _).
Qed.

Lemma replaceRuns_spaced b y :
  Forall slugUnit y ->
  JS.noAdjacent JS.isHyphen y ->
  (b = true -> JS.startsClass JS.isHyphen y = false) ->
  JS.replaceRuns JS.isWhiteSpace [JS.HYPHEN] b (List.map spaced y) = y.
Proof.
  intros Hy. revert b. induction Hy as [|c r Hc _ IH]; intros b Hadj Hb;
    [done|].
  destruct Hadj as [Hnext Hadj]. cbn [List.map JS.replaceRuns].
  change (spaced c) with (if JS.isHyphen c then JS.SPACE else c).
  simpl in Hb. destruct (JS.isHyphen c) eqn:Ec.
  - destruct b; [by specialize (Hb eq_refl)|].
    change (JS.isWhiteSpace JS.SPACE) with true. cbv iota.
    rewrite IH by auto. simpl. f_equal. symmetry. by apply isHyphen_eq.
  - destruct Hc as (_ & -> & _). f_equal. apply IH; [done|congruence].
Qed.

Hypothesis toLowerCase_ascii :
  forall s, Forall (fun c => JS.isAscii c = true) s ->
            toLowerCase s = List.map JS.asciiLower s.

Hypothesis toLowerCase_no_upper :
  forall s, Forall (fun c => JS.isUpper c = false) (toLowerCase s).

Lemma slugify_spaced y :
  Forall slugUnit y ->
  JS.noAdjacent JS.isHyphen y ->
  JS.startsClass JS.isHyphen y = false ->
  JS.startsClass JS.isHyphen (rev y) = false ->
  slugify toLowerCase (List.map spaced y) = y.
Proof using toLowerCase_ascii.
  intros Hy Hadj Hfirst Hlast. unfold slugify, JS.replacePlus.
  change (JS.str "-") with [JS.HYPHEN]. change (JS.str "") with (@nil Z).
  assert (Forall (fun c => slugUnit c \/ c = JS.SPACE) (List.map spaced y))
    as Ht.
  { clear -Hy. induction Hy as [|c r Hc _ IH]; simpl; constructor; [|done].
    unfold spaced. destruct (JS.isHyphen c); [by right | by left]. }
  rewrite toLowerCase_ascii.
  2:{ eapply Forall_impl; [exact Ht|]. intros c [Hc| ->]; [|done].
      by apply slugUnit_ascii. }
  assert (List.map JS.asciiLower (List.map spaced y) = List.map spaced y) as ->.
  { clear -Ht. induction Ht as [|c r Hc _ IH]; simpl; [done|]. rewrite IH.
    f_equal. destruct Hc as [Hc| ->]; [by apply slugUnit_lower | done]. }
  rewrite trim_edges.
  2:{ by apply startsClass_spaced. }
  2:{ rewrite <- List.map_rev. apply startsClass_spaced; [|done].
      by apply Forall_rev. }
  rewrite replaceClass_none.
  2:{ eapply Forall_impl; [exact Ht|]. intros c Hc. cbv beta.
      apply negb_false_iff. destruct Hc as [(Hc & _ & _)| ->]; [|done].
      apply orb_true_iff in Hc as [Hc|Hc]; rewrite Hc;
        by rewrite ?orb_true_r. }
  rewrite replaceRuns_spaced by done.
  apply replaceRuns_fixed; [apply isHyphen_eq | exact Hadj | done].
Qed.

(** X16.  When the slug of a title neither begins nor ends with a hyphen,
    the title that the listing shows for the note has the same slug, so
    [read_note] with the title shown returns what [read_note] with the
    title itself returns. *)
Theorem listed_title_reads_the_note (T : jsstring) (w : world) :
  JS.startsClass JS.isHyphen (slugify toLowerCase T) = false ->
  JS.startsClass JS.isHyphen (rev (slugify toLowerCase T)) = false ->
  slugify toLowerCase (displayTitle (slugify toLowerCase T ++ JS.str ".md"))
  = slugify toLowerCase T
  /\ result
       (handleReadNote toLowerCase
          (VString (displayTitle (slugify toLowerCase T ++ JS.str ".md")))) w
     = result (handleReadNote toLowerCase (VString T)) w.
Proof using toLowerCase_ascii toLowerCase_no_upper.
  intros Hfirst Hlast.
  destruct (slugify_shape toLowerCase toLowerCase_no_upper T) as [Hy Hadj].
  assert (slugify toLowerCase
            (displayTitle (slugify toLowerCase T ++ JS.str ".md"))
          = slugify toLowerCase T) as Hslug.
  { rewrite (proj2 (displayTitle_of_slug _ Hy)). by apply slugify_spaced. }
  split; [exact Hslug|].
  unfold result. by rewrite !handleReadNote_spec, Hslug.
Qed.

End SlugEdges.

(** ** Instances *)

Lemma save_note_last_writer_wins_witness :
  contents
    (after (handleSaveNote JS.asciiLowerCase
              (VString (JS.str "project   ideas")) (VString (JS.str "second")))
       (after (handleSaveNote JS.asciiLowerCase
                 (VString (JS.str "Project Ideas")) (VString (JS.str "first")))
          freshWorld))
  = contents
      (after (handleSaveNote JS.asciiLowerCase
                (VString (JS.str "project   ideas"))
                (VString (JS.str "second")))
         freshWorld).
Proof.
  apply (save_note_last_writer_wins JS.asciiLowerCase
           (JS.str "Project Ideas") (JS.str "first")
           (JS.str "project   ideas") (JS.str "second") freshWorld).
  reflexivity.
Defined.

Lemma save_note_commutes_witness :
  contents
    (after (handleSaveNote JS.asciiLowerCase
              (VString (JS.str "To do")) (VString (JS.str "second")))
       (after (handleSaveNote JS.asciiLowerCase
                 (VString (JS.str "Project Ideas")) (VString (JS.str "first")))
          freshWorld))
  = contents
      (after (handleSaveNote JS.asciiLowerCase
                (VString (JS.str "Project Ideas")) (VString (JS.str "first")))
         (after (handleSaveNote JS.asciiLowerCase
                   (VString (JS.str "To do")) (VString (JS.str "second")))
            freshWorld)).
Proof.
  apply (save_note_commutes JS.asciiLowerCase
           (JS.str "Project Ideas") (JS.str "first")
           (JS.str "To do") (JS.str "second") freshWorld).
  vm_compute. discriminate.
Defined.

Lemma read_note_unaffected_by_other_save_witness :
  result (handleReadNote JS.asciiLowerCase (VString (JS.str "To do")))
    (after (handleSaveNote JS.asciiLowerCase
              (VString (JS.str "Project Ideas")) (VString (JS.str "first")))
       freshWorld)
  = result (handleReadNote JS.asciiLowerCase (VString (JS.str "To do")))
      freshWorld.
Proof.
  apply (read_note_unaffected_by_other_save JS.asciiLowerCase
           (JS.str "Project Ideas") (JS.str "To do") (JS.str "first")
           freshWorld).
  vm_compute. discriminate.
Defined.

Lemma displayTitle_without_inner_dot_witness :
  displayTitle (JS.str "project-ideas" ++ JS.str ".md")
  = List.map (fun c => if JS.isHyphen c then JS.SPACE else c)
      (JS.str "project-ideas")
  /\ displayTitle (JS.str "project-ideas" ++ JS.str ".md")
     = Reference.displayTitle (JS.str "project-ideas" ++ JS.str ".md").
Proof.
  apply (displayTitle_without_inner_dot (JS.str "project-ideas")).
  vm_compute. repeat constructor; discriminate.
Defined.

Lemma read_after_save_replaces_unpaired_surrogates_witness :
  result (handleReadNote JS.asciiLowerCase (VString (JS.str "t")))
    (after (handleSaveNote JS.asciiLowerCase (VString (JS.str "t"))
              (VString [97; 0xD800; 98; 0xD83D; 0xDE00]))
       freshWorld)
  = Returns {| type := JS.str "text";
               text := toWellFormed [97; 0xD800; 98; 0xD83D; 0xDE00] |}
  /\ Utf8.wellFormed (toWellFormed [97; 0xD800; 98; 0xD83D; 0xDE00]) = true
  /\ (toWellFormed [97; 0xD800; 98; 0xD83D; 0xDE00]
      = [97; 0xD800; 98; 0xD83D; 0xDE00]
      <-> Utf8.wellFormed [97; 0xD800; 98; 0xD83D; 0xDE00] = true).
Proof.
  apply (read_after_save_replaces_unpaired_surrogates JS.asciiLowerCase
           (JS.str "t") [97; 0xD800; 98; 0xD83D; 0xDE00] freshWorld).
  - by apply Nat.leb_le.
  - repeat constructor; lia.
Defined.

Lemma save_note_failure_writes_nothing_witness :
  contents
    (after (processToolCall JS.asciiLowerCase (fun _ => JS.str "1970-01-01")
              byName (JS.str "save_note")
              (Some {| title := VString longTitle;
                       content := VString (JS.str "x") |}))
       freshWorld)
  = contents freshWorld
  /\ ENAMETOOLONG = ENAMETOOLONG
  /\ (Fs.NAME_MAX
      < length (slugify JS.asciiLowerCase longTitle ++ JS.str ".md"))%nat.
Proof.
  apply (save_note_failure_writes_nothing JS.asciiLowerCase
           (fun _ => JS.str "1970-01-01") byName
           (Some {| title := VString longTitle;
                    content := VString (JS.str "x") |})
           freshWorld ENAMETOOLONG).
  vm_compute. reflexivity.
Defined.


Lemma unregistered_tool_is_unknown_witness :
  processToolCall JS.asciiLowerCase (fun _ => JS.str "1970-01-01") byName
    (JS.str "Save_Note") None freshWorld
  = (Returns {| type := JS.str "text";
                text := JS.str "Unknown tool: " ++ JS.str "Save_Note" |},
     freshWorld).
Proof.
  apply (unregistered_tool_is_unknown JS.asciiLowerCase
           (fun _ => JS.str "1970-01-01") byName (JS.str "Save_Note") None
           freshWorld).
  vm_compute. intros H.
  repeat (apply elem_of_cons in H as [H|H]; [discriminate H|]).
  by apply elem_of_nil in H.
Defined.

Lemma listed_title_reads_the_note_witness :
  slugify JS.asciiLowerCase
    (displayTitle
       (slugify JS.asciiLowerCase (JS.str "Project Ideas") ++ JS.str ".md"))
  = slugify JS.asciiLowerCase (JS.str "Project Ideas")
  /\ result
       (handleReadNote JS.asciiLowerCase
          (VString
             (displayTitle
                (slugify JS.asciiLowerCase (JS.str "Project Ideas")
                 ++ JS.str ".md"))))
       freshWorld
     = result
         (handleReadNote JS.asciiLowerCase (VString (JS.str "Project Ideas")))
         freshWorld.
Proof.
  apply (listed_title_reads_the_note JS.asciiLowerCase asciiLowerCase_ascii
           asciiLowerCase_no_upper (JS.str "Project Ideas") freshWorld);
    reflexivity.
Defined.

Lemma save_note_writes_one_file_witness :
  let filename :=
    slugify JS.asciiLowerCase (JS.str "Project Ideas") ++ JS.str ".md" in
  let save :=
    handleSaveNote JS.asciiLowerCase (VString (JS.str "Project Ideas"))
      (VString (JS.str "# Ideas")) in
  result save freshWorld
  = Returns {| type := JS.str "text";
               text := JS.str "Note saved successfully: " ++ filename |}
  /\ files (after save freshWorld) !! filename
     = Some {| bytes := Utf8.encode (JS.str "# Ideas");
               mtime := clock freshWorld |}
  /\ (forall name, name <> filename ->
        files (after save freshWorld) !! name = files freshWorld !! name)
  /\ clock (after save freshWorld) = clock freshWorld.
Proof.
  apply (save_note_writes_one_file JS.asciiLowerCase (JS.str "Project Ideas")
           (JS.str "# Ideas") freshWorld).
  by apply Nat.leb_le.
Defined.

